(** * receipt-reader: the /api/receipt-ocr handler and its normalisation stage

    A shallow embedding of the serverless function [module.exports] of the
    receipt reader.  The handler forwards an image to a vision API, parses
    the JSON answer and reshapes it into a display-ready receipt.  The
    values it works on come from [JSON.parse], so they are modelled as JSON
    trees; strings are sequences of UTF-16 code units, as in JavaScript. *)

From Stdlib Require Import List NArith Bool Lia String Ascii.
Import ListNotations.
Local Open Scope N_scope.
Set Warnings "-register-all".

(** ** Strings *)

Definition code_unit := N.
Definition jstring := list code_unit.

(** An ASCII literal of the source as a sequence of code units. *)
Definition lit (s : string) : jstring := map N_of_ascii (list_ascii_of_string s).

Fixpoint jstring_eqb (a b : jstring) : bool :=
  match a, b with
  | [], [] => true
  | x :: a', y :: b' => (x =? y) && jstring_eqb a' b'
  | _, _ => false
  end.

(** The literals of the source that are not ASCII. *)
Definition unknown_store : jstring := [0x5E97; 0x8217; 0x540D; 0x4E0D; 0x660E].
Definition generic_item : jstring := [0x5546; 0x54C1].
Definition ascii_comma : code_unit := 0x2C.
Definition fullwidth_comma : code_unit := 0xFF0C.
Definition minus_sign : code_unit := 0x2D.
Definition plus_sign : code_unit := 0x2B.
Definition infinity_symbol : code_unit := 0x221E.
Definition api_error_prefix : jstring :=
  lit "OpenAI API " ++ [0x30A8; 0x30E9; 0x30FC] ++ lit " (".

(** ** Exceptions and the error monad *)

Inductive type_error :=
| ReadOfNullish (key : jstring)    (* reading a property of null or undefined *)
| NotCallable (key : jstring)      (* calling a property that is not a function *)
| NotPrimitive.                    (* an object that converts to no primitive *)

Inductive js_error :=
| TypeError (te : type_error)
| Rejected (message : jstring).    (* a rejected promise of fetch or text() *)

Inductive result (A : Type) :=
| Ok (a : A)
| Throw (e : js_error).
Arguments Ok {A} a.
Arguments Throw {A} e.

Definition bind {A B} (r : result A) (k : A -> result B) : result B :=
  match r with
  | Ok a => k a
  | Throw e => Throw e
  end.

Notation "'do' x <- r ; k" := (bind r (fun x => k))
  (at level 10, x name, r at level 100, k at level 200).

Fixpoint mapM {A B} (f : A -> result B) (l : list A) : result (list B) :=
  match l with
  | [] => Ok []
  | x :: r => do y <- f x; do ys <- mapM f r; Ok (y :: ys)
  end.

(** ** Values

    The values are those of [JSON.parse], and undefined, which a read of a
    missing property gives.  An object lists its own properties, each key
    once; [assoc] reads the first binding of a key.

    A JSON number is an IEEE double.  The handler never computes with the
    numbers of its input: it tests them for truthiness and renders them with
    [Number.prototype.toString], so these two observations are all the model
    keeps of them. *)

Class JsNumber (num : Type) := {
  num_truthy : num -> bool;
  num_toString : num -> jstring
}.

Inductive value (num : Type) :=
| VUndef
| VNull
| VBool (b : bool)
| VNum (n : num)
| VStr (s : jstring)
| VArr (xs : list (value num))
| VObj (fields : list (jstring * value num)).
Arguments VUndef {num}.
Arguments VNull {num}.
Arguments VBool {num} b.
Arguments VNum {num} n.
Arguments VStr {num} s.
Arguments VArr {num} xs.
Arguments VObj {num} fields.

(** The decimal numeral of a natural number; the fuel bounds the number of
    digits. *)
Fixpoint digits_fuel (fuel : nat) (n : N) : jstring :=
  match fuel with
  | O => []
  | S f => if n <? 10 then [48 + n]
           else digits_fuel f (n / 10) ++ [48 + n mod 10]
  end.

Definition decimal (n : N) : jstring :=
  digits_fuel (S (N.to_nat (N.log2 n))) n.

Definition signed_decimal (neg : bool) (n : N) : jstring :=
  (if neg then [minus_sign] else []) ++ decimal n.

(** Integers below 2^53 as JSON numbers: zero is falsy, and the rendering is
    the decimal one. *)
Inductive small_int := Int (neg : bool) (mag : N).

#[export] Instance small_int_number : JsNumber small_int := {
  num_truthy := fun '(Int _ m) => negb (m =? 0);
  num_toString := fun '(Int neg m) => signed_decimal (neg && negb (m =? 0)) m
}.

Section Values.
Context {num : Type} {NUM : JsNumber num}.

Definition nullish (v : value num) : bool :=
  match v with
  | VUndef | VNull => true
  | _ => false
  end.

Definition truthy (v : value num) : bool :=
  match v with
  | VUndef | VNull => false
  | VBool b => b
  | VNum n => num_truthy n
  | VStr s => match s with [] => false | _ => true end
  | VArr _ | VObj _ => true
  end.

(** [a || b] *)
Definition or_else (a b : value num) : value num :=
  if truthy a then a else b.

Fixpoint assoc (k : jstring) (fields : list (jstring * value num))
  : option (value num) :=
  match fields with
  | [] => None
  | (k', v) :: r => if jstring_eqb k k' then Some v else assoc k r
  end.

(** [v.k] on a value that is neither null nor undefined, for a key that no
    built-in prototype defines: every key the handler reads by name
    (storeName, date, total, categoryId, items, name, price, imageSrc,
    choices, message, content, error) is of that kind.  Only an object
    can hold it; on a primitive or an array the read gives undefined. *)
Definition prop (v : value num) (k : jstring) : value num :=
  match v with
  | VObj fields => match assoc k fields with Some x => x | None => VUndef end
  | _ => VUndef
  end.

Definition get (v : value num) (k : jstring) : result (value num) :=
  if nullish v then Throw (TypeError (ReadOfNullish k)) else Ok (prop v k).

(** [v[0]] on a value that is neither null nor undefined. *)
Definition index0 (v : value num) : value num :=
  match v with
  | VArr xs => match xs with x :: _ => x | [] => VUndef end
  | VStr s => match s with c :: _ => VStr [c] | [] => VUndef end
  | VObj fields => match assoc (lit "0") fields with Some x => x | None => VUndef end
  | _ => VUndef
  end.

Definition has_own (k : jstring) (fields : list (jstring * value num)) : bool :=
  match assoc k fields with Some _ => true | None => false end.

(** [Array.prototype.join] with the default separator, over the conversion
    [text] of an element: null and undefined elements are rendered empty. *)
Definition join (text : value num -> result jstring)
  : list (value num) -> result jstring :=
  fix go (l : list (value num)) : result jstring :=
    match l with
    | [] => Ok []
    | x :: r =>
        do s <- (if nullish x then Ok [] else text x);
        match r with
        | [] => Ok s
        | _ :: _ => do t <- go r; Ok (s ++ ascii_comma :: t)
        end
    end.

(** The abstract operation ToString.  An array is joined with commas.  An
    object parsed from JSON holds no function: with a [toString] key of its
    own it converts to no primitive, without one it inherits
    [Object.prototype.toString]. *)
Fixpoint ToString (v : value num) : result jstring :=
  match v with
  | VUndef => Ok (lit "undefined")
  | VNull => Ok (lit "null")
  | VBool b => Ok (if b then lit "true" else lit "false")
  | VNum n => Ok (num_toString n)
  | VStr s => Ok s
  | VArr xs => join ToString xs
  | VObj fields =>
      if has_own (lit "toString") fields then Throw (TypeError NotPrimitive)
      else Ok (lit "[object Object]")
  end.

(** The method call [v.toString()]. *)
Definition toString (v : value num) : result jstring :=
  match v with
  | VUndef | VNull => Throw (TypeError (ReadOfNullish (lit "toString")))
  | VObj fields =>
      if has_own (lit "toString") fields
      then Throw (TypeError (NotCallable (lit "toString")))
      else Ok (lit "[object Object]")
  | _ => ToString v
  end.

(** A value as [JSON.parse] can return it: no undefined inside. *)
Fixpoint is_json (v : value num) : bool :=
  match v with
  | VUndef => false
  | VArr xs => forallb is_json xs
  | VObj fields => forallb (fun kv => is_json (snd kv)) fields
  | _ => true
  end.
End Values.

(** Induction on values, through the lists of arrays and objects. *)
Section ValueInduction.
Context {num : Type}.
Variable P : value num -> Prop.
Hypothesis P_undef : P VUndef.
Hypothesis P_null : P VNull.
Hypothesis P_bool : forall b, P (VBool b).
Hypothesis P_num : forall n, P (VNum n).
Hypothesis P_str : forall s, P (VStr s).
Hypothesis P_arr : forall xs, Forall P xs -> P (VArr xs).
Hypothesis P_obj : forall fields, Forall (fun kv => P (snd kv)) fields -> P (VObj fields).

Fixpoint value_induction (v : value num) : P v :=
  match v with
  | VUndef => P_undef
  | VNull => P_null
  | VBool b => P_bool b
  | VNum n => P_num n
  | VStr s => P_str s
  | VArr xs =>
      P_arr xs ((fix all (l : list (value num)) : Forall P l :=
                   match l with
                   | [] => Forall_nil P
                   | x :: r => Forall_cons x (value_induction x) (all r)
                   end) xs)
  | VObj fields =>
      P_obj fields
        ((fix all (l : list (jstring * value num))
            : Forall (fun kv => P (snd kv)) l :=
            match l with
            | [] => Forall_nil _
            | kv :: r => Forall_cons kv (value_induction (snd kv)) (all r)
            end) fields)
  end.
End ValueInduction.

(** ** Numbers computed by the handler

    [parseInt] gives NaN or the double nearest to the integer it read, with
    a sign that zero keeps, and an infinity when that integer is past the
    range of the doubles.  A finite result is stored by sign and magnitude;
    the conversion of the digits is the exact one. *)

Inductive number :=
| NaN
| Infinity (neg : bool)
| Finite (neg : bool) (mag : N).

Definition isNaN (x : number) : bool :=
  match x with NaN => true | _ => false end.

(** Round to nearest, ties to even, of a positive integer to the 53-bit
    significand of a double; [None] when the result leaves the double range. *)
Definition round_to_double (m : N) : option N :=
  if m <? 2 ^ 53 then Some m
  else
    let e := N.log2 m - 52 in
    let q := m / 2 ^ e in
    let r := m mod 2 ^ e in
    let half := 2 ^ (e - 1) in
    let q' := if (half <? r) || ((r =? half) && N.odd q) then q + 1 else q in
    if q' * 2 ^ e <? 2 ^ 1024 then Some (q' * 2 ^ e) else None.

Definition to_number (neg : bool) (m : N) : number :=
  match round_to_double m with
  | Some r => Finite neg r
  | None => Infinity neg
  end.

(** White space and line terminators that [parseInt] skips. *)
Definition is_white_space (c : code_unit) : bool :=
  ((9 <=? c) && (c <=? 13)) || (c =? 0x20) || (c =? 0xA0) || (c =? 0x1680)
  || ((0x2000 <=? c) && (c <=? 0x200A)) || (c =? 0x2028) || (c =? 0x2029)
  || (c =? 0x202F) || (c =? 0x205F) || (c =? 0x3000) || (c =? 0xFEFF).

Definition is_digit (c : code_unit) : bool := (48 <=? c) && (c <=? 57).

Fixpoint trimStart (s : jstring) : jstring :=
  match s with
  | c :: r => if is_white_space c then trimStart r else s
  | [] => []
  end.

Fixpoint leading_digits (s : jstring) : jstring :=
  match s with
  | c :: r => if is_digit c then c :: leading_digits r else []
  | [] => []
  end.

Definition digits_value (ds : jstring) : N :=
  fold_left (fun acc c => 10 * acc + (c - 48)) ds 0.

(** [parseInt(s, 10)] *)
Definition parseInt10 (s : jstring) : number :=
  let t := trimStart s in
  let neg := match t with c :: _ => c =? minus_sign | [] => false end in
  let body := match t with
              | c :: r => if (c =? minus_sign) || (c =? plus_sign) then r else t
              | [] => []
              end in
  match leading_digits body with
  | [] => NaN
  | ds => to_number neg (digits_value ds)
  end.

(** [s.replace(/[,，]/g, '')] *)
Definition is_separator (c : code_unit) : bool :=
  (c =? ascii_comma) || (c =? fullwidth_comma).

Definition strip_separators (s : jstring) : jstring :=
  filter (fun c => negb (is_separator c)) s.

(** The digits a double is printed with are those of the shortest decimal
    that reads back as the same double, the closest to it when two are as
    short, with zeros in the places left out: 2^55 = 36028797018963968 is
    printed 36028797018963970.  Below 2^53 every integer is printed as it
    is. *)

(** The decimal [c] reads back as the double [m]. *)
Definition reads_as (m c : N) : bool :=
  match round_to_double c with
  | Some r => r =? m
  | None => false
  end.

(** The search for the shortest decimal, from [j] places left out down to
    none: the multiples of 10^j next to [m] are tried. *)
Fixpoint shortest_at (j : nat) (m : N) : N :=
  let unit := 10 ^ N.of_nat j in
  let lo := m / unit * unit in
  let hi := lo + unit in
  match reads_as m lo, reads_as m hi with
  | true, true =>
      if m - lo <? hi - m then lo
      else if hi - m <? m - lo then hi
      else if N.even (m / unit) then lo else hi
  | true, false => lo
  | false, true => hi
  | false, false =>
      match j with
      | O => m
      | S j' => shortest_at j' m
      end
  end.

Definition shortest (m : N) : N :=
  shortest_at (pred (List.length (decimal m))) m.

(** [x.toLocaleString('ja-JP')]: Western digits in groups of three divided
    by ASCII commas and a hyphen-minus for the sign, which negative zero
    keeps; an infinity is the infinity sign. *)
Fixpoint group_rev (k : nat) (r : jstring) : jstring :=
  match r with
  | [] => []
  | d :: r' =>
      match k with
      | 3%nat => ascii_comma :: d :: group_rev 1 r'
      | _ => d :: group_rev (S k) r'
      end
  end.

Definition group3 (ds : jstring) : jstring := rev (group_rev 0 (rev ds)).

Definition toLocaleString (x : number) : jstring :=
  match x with
  | NaN => lit "NaN"
  | Infinity neg => (if neg then [minus_sign] else []) ++ [infinity_symbol]
  | Finite neg m =>
      (if neg then [minus_sign] else []) ++ group3 (decimal (shortest m))
  end.

(** ** The clock

    [new Date()] read in local time, and its rendering by
    [toLocaleString('ja-JP', ...)] with a numeric year, a long month, a
    numeric day and two-digit hour and minute: 2026年11月2日 09:05. *)

Record clock := { year : N; month : N; day : N; hour : N; minute : N }.

Definition two_digits (n : N) : jstring :=
  if n <? 10 then 48 :: decimal n else decimal n.

Definition formatNow (t : clock) : jstring :=
  decimal (year t) ++ [0x5E74] ++ decimal (month t) ++ [0x6708]
  ++ decimal (day t) ++ [0x65E5] ++ lit " "
  ++ two_digits (hour t) ++ lit ":" ++ two_digits (minute t).

(** ** The normalisation stage (lines 126 to 175 of the handler) *)

Definition categories : list jstring :=
  map lit ["food"; "transport"; "daily"; "entertainment"; "medical";
           "education"; "other"]%string.

Section Normalizer.
Context {num : Type} {NUM : JsNumber num}.

(** [categories.includes(v)]: only a string can be the same as one of
    the seven literals. *)
Definition includes (v : value num) : bool :=
  match v with
  | VStr s => existsb (jstring_eqb s) categories
  | _ => false
  end.

(** [isNaN(parseInt(raw, 10)) ? 0 : parseInt(raw, 10)] *)
Definition number_or_zero (raw : jstring) : number :=
  if isNaN (parseInt10 raw) then Finite false 0 else parseInt10 raw.

(** [(v || '0').toString().replace(/[,，]/g, '')] *)
Definition raw_amount (v : value num) : result jstring :=
  do text <- toString (or_else v (VStr (lit "0")));
  Ok (strip_separators text).

Definition amount (v : value num) : result number :=
  do raw <- raw_amount v;
  Ok (number_or_zero raw).

(** The filter callback [item && item.name]; the read happens on a truthy
    item only, so it cannot throw. *)
Definition keep (item : value num) : bool :=
  truthy item && truthy (prop item (lit "name")).

(** The map callback.  It runs on items that passed the filter and after
    [data.storeName] was read, so neither [item] nor [data] is null or
    undefined here and the property reads cannot throw. *)
Definition mapItem (data item : value num) : result (value num) :=
  do itemPrice <- amount (prop item (lit "price"));
  Ok (VObj [(lit "name", prop item (lit "name"));
            (lit "price", VStr (toLocaleString itemPrice));
            (lit "categoryId",
              or_else (prop item (lit "categoryId"))
                      (or_else (prop data (lit "categoryId"))
                               (VStr (lit "other"))))]).

Definition items (data : value num) : list (value num) :=
  match prop data (lit "items") with
  | VArr xs => xs
  | _ => []
  end.

Definition resolve_category (cat : value num) : value num :=
  if truthy cat && includes cat then cat else VStr (lit "other").

Definition normalize (now : clock) (data : value num) : result (value num) :=
  do storeName <- get data (lit "storeName");
  let safeStoreName := or_else storeName (VStr unknown_store) in
  do date <- get data (lit "date");
  let safeDate := or_else date (VStr (formatNow now)) in
  do total <- get data (lit "total");
  do numericTotal <- amount total;
  do mappedItems <- mapM (mapItem data) (filter keep (items data));
  do cat <- get data (lit "categoryId");
  let categoryId := resolve_category cat in
  Ok (VObj [(lit "storeName", safeStoreName);
            (lit "date", safeDate);
            (lit "total", VStr (toLocaleString numericTotal));
            (lit "categoryId", categoryId);
            (lit "items",
              VArr match mappedItems with
                   | _ :: _ => mappedItems
                   | [] => [VObj [(lit "name", VStr generic_item);
                                  (lit "price", VStr (toLocaleString numericTotal));
                                  (lit "categoryId", categoryId)]]
                   end)]).
End Normalizer.

(** ** The handler *)

Inductive event :=
| ReadBody                                   (* req.body *)
| Fetch (url : jstring) (image : jstring)    (* the call of the vision API *)
| Log.                                       (* console.error *)

(** What the network gives back to [fetch] and [response.text()]. *)
Inductive upstream :=
| FetchRejects (e : js_error)
| FetchReplies (ok : bool) (reply_status : N) (text : jstring).

Definition OPENAI_API_URL : jstring :=
  lit "https://api.openai.com/v1/chat/completions".

Section Handler.
Context {num : Type} {NUM : JsNumber num}.

(** [JSON.parse] on a string ([None] is its SyntaxError) and the message
    the engine puts in a TypeError. *)
Variable JSON_parse : jstring -> option (value num).
Variable engine_message : type_error -> jstring.

Record request := { method : jstring; body : value num }.
Record response := { status : N; payload : value num }.

Definition error_body (message : jstring) : value num :=
  VObj [(lit "error", VStr message)].

(** The catch clause of the outer try. *)
Definition server_error (e : js_error) : response :=
  let message := match e with
                 | TypeError te => engine_message te
                 | Rejected m => m
                 end in
  {| status := 500;
     payload := VObj [(lit "error",
                       or_else (VStr message)
                               (VStr (lit "Unknown server error")))] |}.

(** The message built when the vision API answers with an error status. *)
Definition errorMessage (st : N) (text : jstring) : jstring :=
  let status_part := api_error_prefix ++ decimal st ++ lit ")" in
  let with_text := status_part ++ lit ": " ++ text in
  match JSON_parse text with
  | None => with_text
  | Some errorJson =>
      match get errorJson (lit "error") with
      | Throw _ => with_text
      | Ok err =>
          let message :=
            if nullish err then VUndef else prop err (lit "message") in
          if truthy message then
            match ToString message with
            | Ok m => status_part ++ lit ": " ++ m
            | Throw _ => with_text
            end
          else with_text
      end
  end.

(** [json.choices?.[0]?.message?.content] *)
Definition content_of (json : value num) : result (value num) :=
  do choices <- get json (lit "choices");
  Ok (if nullish choices then VUndef else
      let first := index0 choices in
      if nullish first then VUndef else
      let message := prop first (lit "message") in
      if nullish message then VUndef else prop message (lit "content")).

(** [JSON.parse(v)] on a value: it is first converted to a string. *)
Definition parse_value (v : value num) : option (value num) :=
  match ToString v with
  | Ok s => JSON_parse s
  | Throw _ => None
  end.

Definition handler (apiKey : option jstring) (now : clock) (net : upstream)
    (req : request) : list event * response :=
  if negb (jstring_eqb (method req) (lit "POST")) then
    ([], {| status := 405; payload := error_body (lit "Method not allowed") |})
  else
  match apiKey with
  | None | Some [] =>
    ([], {| status := 500;
            payload := error_body (lit "OPENAI_API_KEY is not set on the server.") |})
  | Some (_ :: _) =>
  match prop (or_else (body req) (VObj [])) (lit "imageSrc") with
  | VStr (c :: s) =>
    let sent := [ReadBody; Fetch OPENAI_API_URL (c :: s)] in
    match net with
    | FetchRejects e => (sent ++ [Log], server_error e)
    | FetchReplies false st text =>
      (sent ++ [Log],
       {| status := st; payload := error_body (errorMessage st text) |})
    | FetchReplies true _ text =>
      match JSON_parse text with
      | None =>
        (sent ++ [Log],
         {| status := 500;
            payload := error_body (lit "Failed to parse OpenAI JSON response.") |})
      | Some json =>
        match content_of json with
        | Throw e => (sent ++ [Log], server_error e)
        | Ok content =>
          if negb (truthy content) then
            (sent ++ [Log],
             {| status := 500;
                payload := error_body (lit "Unexpected OpenAI response format.") |})
          else
          match parse_value content with
          | None =>
            (sent ++ [Log],
             {| status := 500;
                payload := error_body (lit "Failed to parse OpenAI content as JSON.") |})
          | Some data =>
            match normalize now data with
            | Throw e => (sent ++ [Log], server_error e)
            | Ok result => (sent, {| status := 200; payload := result |})
            end
          end
        end
      end
    end
  | _ => ([ReadBody], {| status := 400; payload := error_body (lit "imageSrc is required.") |})
  end
  end.
End Handler.

(** ** Vocabulary of the properties *)

(** A number that can be an amount: infinite, or an integer that a double
    holds exactly; never NaN. *)
Definition is_amount (x : number) : bool :=
  match x with
  | NaN => false
  | Infinity _ => true
  | Finite _ m => match round_to_double m with
                  | Some r => r =? m
                  | None => false
                  end
  end.

Definition finite (x : number) : bool :=
  match x with Finite _ _ => true | _ => false end.

(** The sign a number is printed with; negative zero has it. *)
Definition negative (x : number) : bool :=
  match x with
  | Finite neg _ | Infinity neg => neg
  | NaN => false
  end.

(** The text starts, after white space, with a minus sign and a digit. *)
Definition minus_led (raw : jstring) : bool :=
  match trimStart raw with
  | c :: d :: _ => (c =? minus_sign) && is_digit d
  | _ => false
  end.

(** An optional sign of a numeral: none, plus or minus. *)
Inductive sign := NoSign | Plus | Minus.

Definition sign_text (s : sign) : jstring :=
  match s with
  | NoSign => []
  | Plus => [plus_sign]
  | Minus => [minus_sign]
  end.

Definition sign_negative (s : sign) : bool :=
  match s with Minus => true | _ => false end.

(** The text does not go on with a digit. *)
Definition stops (rest : jstring) : bool :=
  match rest with
  | c :: _ => negb (is_digit c)
  | [] => true
  end.

Section Vocabulary.
Context {num : Type} {NUM : JsNumber num}.

(** The items that pass the filter. *)
Definition kept_items (data : value num) : list (value num) :=
  filter keep (items data).

(** The amount field converts to a text whose amount satisfies [P]. *)
Definition amount_meets (P : number -> bool) (v : value num) : bool :=
  match amount v with
  | Ok x => P x
  | Throw _ => false
  end.

(** The total and the price of every kept item do. *)
Definition amounts_meet (P : number -> bool) (data : value num) : bool :=
  amount_meets P (prop data (lit "total"))
  && forallb (fun item => amount_meets P (prop item (lit "price")))
             (kept_items data).

(** A value that no conversion to a string accepts: an object with a
    [toString] key of its own, or an array that holds such a value. *)
Fixpoint unprintable (v : value num) : bool :=
  match v with
  | VObj fields => has_own (lit "toString") fields
  | VArr xs => existsb unprintable xs
  | _ => false
  end.

(** An amount field that the handler can render: falsy, and then replaced
    by '0', or printable. *)
Definition printable_amount (v : value num) : bool :=
  negb (truthy v && unprintable v).

(** The total and the price of every kept item can be rendered. *)
Definition renders (data : value num) : bool :=
  printable_amount (prop data (lit "total"))
  && forallb (fun item => printable_amount (prop item (lit "price")))
             (kept_items data).

(** No amount leaves the range of the doubles. *)
Definition finite_amounts (data : value num) : bool :=
  amounts_meet finite data.

(** The object the map callback returns for an item of price [p]. *)
Definition item_of (data item : value num) (p : number) : value num :=
  VObj [(lit "name", prop item (lit "name"));
        (lit "price", VStr (toLocaleString p));
        (lit "categoryId",
          or_else (prop item (lit "categoryId"))
                  (or_else (prop data (lit "categoryId")) (VStr (lit "other"))))].

(** The item made up when no item is kept. *)
Definition fallback_item (total : number) (category : value num) : value num :=
  VObj [(lit "name", VStr generic_item);
        (lit "price", VStr (toLocaleString total));
        (lit "categoryId", category)].

(** The object [result] for a parsed total and mapped items. *)
Definition receipt_of (now : clock) (data : value num) (total : number)
    (mapped : list (value num)) : value num :=
  VObj [(lit "storeName", or_else (prop data (lit "storeName")) (VStr unknown_store));
        (lit "date", or_else (prop data (lit "date")) (VStr (formatNow now)));
        (lit "total", VStr (toLocaleString total));
        (lit "categoryId", resolve_category (prop data (lit "categoryId")));
        (lit "items",
          VArr match mapped with
               | _ :: _ => mapped
               | [] => [fallback_item total
                          (resolve_category (prop data (lit "categoryId")))]
               end)].

(** A text that renders an amount satisfying [P]. *)
Definition formatted (P : number -> bool) (v : value num) : Prop :=
  exists x, v = VStr (toLocaleString x) /\ is_amount x = true /\ P x = true.

(** The field [v] renders the amount read from the text [raw]: an amount
    that carries the sign of the text, printed with a leading minus sign
    exactly when the text is led by one. *)
Definition renders_text (raw : jstring) (v : value num) : Prop :=
  v = VStr (toLocaleString (number_or_zero raw))
  /\ is_amount (number_or_zero raw) = true
  /\ negative (number_or_zero raw) = minus_led raw
  /\ (minus_led raw = true <-> exists t, v = VStr (minus_sign :: t)).

(** A member of the closed enumeration of categories. *)
Definition valid_category (v : value num) : Prop :=
  exists c, v = VStr c /\ In c categories.

Definition normal_item (P : number -> bool) (item : value num) : Prop :=
  exists name price category,
    item = VObj [(lit "name", name); (lit "price", price);
                 (lit "categoryId", category)]
    /\ truthy name = true /\ formatted P price /\ truthy category = true.

Definition normal_receipt (P : number -> bool) (r : value num) : Prop :=
  exists storeName date total category entries,
    r = VObj [(lit "storeName", storeName); (lit "date", date);
              (lit "total", total); (lit "categoryId", category);
              (lit "items", VArr entries)]
    /\ truthy storeName = true /\ truthy date = true
    /\ formatted P total /\ valid_category category
    /\ entries <> [] /\ Forall (normal_item P) entries.
End Vocabulary.

(** Sample inputs, with integers for the JSON numbers. *)
Definition obj (fields : list (string * value small_int)) : value small_int :=
  VObj (map (fun kv => (lit (fst kv), snd kv)) fields).

Definition str (s : string) : value small_int := VStr (lit s).

Definition now0 : clock :=
  {| year := 2026; month := 11; day := 2; hour := 9; minute := 5 |}.

Section HandlerVocabulary.
Context {num : Type} {NUM : JsNumber num}.

(** The [imageSrc] the handler destructures from [req.body || {}]. *)
Definition imageSrc (req : request) : value num :=
  prop (or_else (body req) (VObj [])) (lit "imageSrc").

(** A non-empty string: what passes the [imageSrc] check. *)
Definition usable_image (v : value num) : bool :=
  match v with
  | VStr (_ :: _) => true
  | _ => false
  end.

(** [OPENAI_API_KEY] is set to a non-empty string. *)
Definition key_set (apiKey : option jstring) : bool :=
  match apiKey with
  | Some (_ :: _) => true
  | _ => false
  end.
End HandlerVocabulary.

(** A receipt whose category and one item category are outside the
    enumeration. *)
Definition sports_receipt : value small_int :=
  obj [("categoryId", str "sports");
       ("items", VArr [obj [("name", str "Coffee"); ("price", str "500");
                            ("categoryId", str "sports")];
                       obj [("name", str "Tea"); ("price", str "300")]])]%string.

Definition comma_total : value small_int := obj [("total", str "2,580")]%string.

Definition minus_total : value small_int := obj [("total", str "-2,580")]%string.

Definition minus_result : value small_int :=
  obj [("storeName", VStr unknown_store); ("date", VStr (formatNow now0));
       ("total", str "-2,580"); ("categoryId", str "other");
       ("items", VArr [obj [("name", VStr generic_item); ("price", str "-2,580");
                            ("categoryId", str "other")]])]%string.

(** A total of 2^55: a double whose shortest digits are not its own. *)
Definition large_total : value small_int :=
  obj [("total", str "36028797018963968")]%string.

Definition large_result : value small_int :=
  obj [("storeName", VStr unknown_store); ("date", VStr (formatNow now0));
       ("total", str "36,028,797,018,963,970"); ("categoryId", str "other");
       ("items", VArr [obj [("name", VStr generic_item);
                            ("price", str "36,028,797,018,963,970");
                            ("categoryId", str "other")]])]%string.

(** A purchase and a refund, with a total of another sign than the first
    price. *)
Definition refund_receipt : value small_int :=
  obj [("total", str "-300");
       ("items", VArr [obj [("name", str "Coffee"); ("price", str "500")];
                       obj [("name", str "Tea"); ("price", str "-800")]])]%string.

Definition refund_result : value small_int :=
  obj [("storeName", VStr unknown_store); ("date", VStr (formatNow now0));
       ("total", str "-300"); ("categoryId", str "other");
       ("items", VArr [obj [("name", str "Coffee"); ("price", str "500");
                            ("categoryId", str "other")];
                       obj [("name", str "Tea"); ("price", str "-800");
                            ("categoryId", str "other")]])]%string.

(** The only item has an empty name. *)
Definition nameless_item : value small_int :=
  obj [("total", str "2,580"); ("categoryId", str "sports");
       ("items", VArr [obj [("name", str ""); ("price", str "100")]])]%string.

(** A total of 310 digits, past the range of the doubles. *)
Definition huge_total : value small_int :=
  obj [("total"%string, VStr (49 :: repeat 48 309%nat))].

Definition cafe_receipt : value small_int :=
  obj [("storeName", str "Cafe"); ("date", str "2024-01-05");
       ("total", str "2580"); ("categoryId", str "food");
       ("items", VArr [obj [("name", str "Coffee"); ("price", str "500")]])]%string.

(** A number as store name and an object as item name. *)
Definition odd_names : value small_int :=
  obj [("storeName", VNum (Int false 7)); ("date", str "2024-01-05");
       ("items", VArr [obj [("name", obj [])]])]%string.

Definition dated : value small_int := obj [("date", str "2024-01-05")]%string.

Definition eve : clock :=
  {| year := 1999; month := 12; day := 31; hour := 23; minute := 59 |}.

(** Requests, and a server on which every parse fails. *)
Definition no_parse : jstring -> option (value small_int) := fun _ => None.
Definition no_message : type_error -> jstring := fun _ => [].
Definition reply : upstream := FetchReplies true 200 [].

Definition get_request : request :=
  {| method := lit "GET"; body := obj [("imageSrc", str "data:image/png")]%string |}.

Definition post_without_image : request :=
  {| method := lit "POST"; body := @VUndef small_int |}.

Definition post_with_number : request :=
  {| method := lit "POST"; body := obj [("imageSrc", VNum (Int false 5))]%string |}.

(** ** The service worker (sw.js)

    The worker precaches five URLs when it is installed, answers every
    fetch from the caches before the network, and deletes the caches of
    other versions when it is activated.  The Cache API is modelled by its
    contents: a cache maps the URL of a GET request to the response stored
    for it, and the cache storage lists the caches by name in the order of
    their creation, which is the order in which [caches.match] searches and
    [caches.keys] enumerates them.  Responses are taken without a Vary
    header, so that a stored response matches by method and URL alone. *)

Definition CACHE_NAME : jstring := lit "ryoshuyomi-v1".

Definition urlsToCache : list jstring :=
  [lit "/";
   lit "/index.html";
   lit "/manifest.json";
   lit "/icons/icon.svg";
   lit "https://fonts.googleapis.com/css2?family=Noto+Serif+JP:wght@400;600;700&family=Zen+Kaku+Gothic+New:wght@400;500;700&display=swap"].

(** A response: its [ok] flag and its body. *)
Record page := { page_ok : bool; page_body : jstring }.

(** A request as the worker sees it: its method and its absolute URL. *)
Record fetch_request := { fetch_method : jstring; fetch_url : jstring }.

Definition get_of (url : jstring) : fetch_request :=
  {| fetch_method := lit "GET"; fetch_url := url |}.

Definition cache := list (jstring * page).
Definition cache_storage := list (jstring * cache).

(** What [fetch] resolves to; [None] is a rejection. *)
Definition network := fetch_request -> option page.

Fixpoint lookup {A : Type} (k : jstring) (l : list (jstring * A)) : option A :=
  match l with
  | [] => None
  | (k', a) :: r => if jstring_eqb k k' then Some a else lookup k r
  end.

Fixpoint distinct (l : list jstring) : bool :=
  match l with
  | [] => true
  | x :: r => negb (existsb (jstring_eqb x) r) && distinct r
  end.

(** [cache.match(request)]: only a GET request matches. *)
Definition cache_match (c : cache) (r : fetch_request) : option page :=
  if jstring_eqb (fetch_method r) (lit "GET") then lookup (fetch_url r) c
  else None.

(** [caches.match(request)]: the first cache, in creation order, that has
    a match. *)
Fixpoint caches_match (s : cache_storage) (r : fetch_request) : option page :=
  match s with
  | [] => None
  | (_, c) :: rest =>
      match cache_match c r with
      | Some p => Some p
      | None => caches_match rest r
      end
  end.

(** [caches.open(name)]: the cache of that name, created empty when there
    is none. *)
Definition caches_open (s : cache_storage) (name : jstring) : cache_storage :=
  match lookup name s with
  | Some _ => s
  | None => s ++ [(name, [])]
  end.

(** [caches.delete(name)] *)
Definition caches_delete (s : cache_storage) (name : jstring) : cache_storage :=
  filter (fun nc => negb (jstring_eqb (fst nc) name)) s.

(** [cache.put(url, response)]: the stored response for the URL is
    replaced. *)
Definition cache_put (c : cache) (url : jstring) (p : page) : cache :=
  filter (fun kv => negb (jstring_eqb (fst kv) url)) c ++ [(url, p)].

(** The cache opened under [name] after [f] has written to it. *)
Fixpoint with_cache (name : jstring) (f : cache -> cache) (s : cache_storage)
  : cache_storage :=
  match s with
  | [] => []
  | (n, c) :: rest =>
      if jstring_eqb name n then (n, f c) :: rest
      else (n, c) :: with_cache name f rest
  end.

(** The fetches of [cache.addAll]: every URL is requested; one rejection or
    one response that is not ok rejects the whole call. *)
Fixpoint fetch_all (net : network) (urls : list jstring)
  : option (list (jstring * page)) :=
  match urls with
  | [] => Some []
  | u :: r =>
      match net (get_of u), fetch_all net r with
      | Some p, Some l => if page_ok p then Some ((u, p) :: l) else None
      | _, _ => None
      end
  end.

Section ServiceWorker.
(** The absolute URL of an entry of [urlsToCache], resolved against the
    location of the worker. *)
Variable resolve : jstring -> jstring.

(** [cache.addAll(urls)] on the cache [name]: nothing is written unless
    every fetch succeeded and no two requests are the same. *)
Definition addAll (net : network) (name : jstring) (urls : list jstring)
    (s : cache_storage) : cache_storage * bool :=
  let requests := map resolve urls in
  match fetch_all net requests with
  | Some entries =>
      if distinct requests then
        (with_cache name
           (fun c => fold_left (fun c kv => cache_put c (fst kv) (snd kv)) entries c)
           s, true)
      else (s, false)
  | None => (s, false)
  end.

(** The install listener; the flag tells whether the promise given to
    [waitUntil] is fulfilled, that is, whether the worker gets installed. *)
Definition on_install (net : network) (s : cache_storage) : cache_storage * bool :=
  addAll net CACHE_NAME urlsToCache (caches_open s CACHE_NAME).

(** The fetch listener: the response given to [respondWith] and the
    requests sent to the network. *)
Definition on_fetch (net : network) (s : cache_storage) (r : fetch_request)
  : option page * list fetch_request :=
  match caches_match s r with
  | Some p => (Some p, [])
  | None => (net r, [r])
  end.

(** The activate listener: every cache whose name is not [CACHE_NAME] is
    deleted, in the order of [caches.keys]. *)
Definition on_activate (s : cache_storage) : cache_storage :=
  fold_left caches_delete
    (filter (fun name => negb (jstring_eqb name CACHE_NAME)) (map fst s)) s.
End ServiceWorker.

(** Sample surroundings of the worker: an origin, a network that answers
    every request with the URL as body, and no network at all. *)
Definition at_origin (u : jstring) : jstring :=
  match u with
  | 47 :: _ => lit "https://ryoshuyomi.example" ++ u
  | _ => u
  end.

Definition online : network :=
  fun r => Some {| page_ok := true; page_body := fetch_url r |}.

Definition offline : network := fun _ => None.

(** A cache of an older version that holds the start page. *)
Definition old_storage : cache_storage :=
  [(lit "ryoshuyomi-v0",
    [(at_origin (lit "/"), {| page_ok := true; page_body := lit "old" |})])].

(** ** Vocabulary of the further properties *)

(** A reply of the network as [fetch] gives it: [ok] tells that the status
    is in the range 200 to 299. *)
Definition well_formed_reply (net : upstream) : bool :=
  match net with
  | FetchRejects _ => true
  | FetchReplies ok st _ => Bool.eqb ok ((200 <=? st) && (st <=? 299))
  end.

Section MoreVocabulary.
Context {num : Type} {NUM : JsNumber num}.

(** [json.choices[0].message.content] read with undefined for whatever is
    missing on the way. *)
Definition first_content (json : value num) : value num :=
  prop (prop (index0 (prop json (lit "choices"))) (lit "message")) (lit "content").

(** The amount that the price of an item parses to, zero when the price
    cannot be rendered. *)
Definition price_of (item : value num) : number :=
  match amount (prop item (lit "price")) with
  | Ok p => p
  | Throw _ => Finite false 0
  end.
End MoreVocabulary.

(** Sample replies of the vision API. *)
Definition api_down : upstream := FetchReplies false 503 (lit "busy").

Definition usable_post : request :=
  {| method := lit "POST"; body := obj [("imageSrc", str "data:image/png")]%string |}.

(** A parser that knows a few texts: three answers of the API, whose
    content is a receipt, the text null and a text that is no JSON, an
    error object of the API, and the texts of the contents. *)
Definition coffee_answer : jstring := lit "{choices}".
Definition coffee_content : jstring := lit "{receipt}".
Definition null_answer : jstring := lit "{null content}".
Definition quota_answer : jstring := lit "{quota}".
Definition broken_answer : jstring := lit "{broken content}".

Definition answer_with (content : jstring) : value small_int :=
  obj [("choices",
        VArr [obj [("message", obj [("content", VStr content)]%string)]%string])]%string.

Definition sample_parse (s : jstring) : option (value small_int) :=
  if jstring_eqb s coffee_answer then Some (answer_with coffee_content)
  else if jstring_eqb s null_answer then Some (answer_with (lit "null"))
  else if jstring_eqb s broken_answer then Some (answer_with (lit "oops"))
  else if jstring_eqb s quota_answer then
    Some (obj [("error", obj [("message", str "quota exceeded")]%string)]%string)
  else if jstring_eqb s coffee_content then Some cafe_receipt
  else if jstring_eqb s (lit "null") then Some VNull
  else if jstring_eqb s (lit "{}") then Some (obj [])
  else None.

(** The results of two sample receipts. *)
Definition sports_result : value small_int :=
  obj [("storeName", VStr unknown_store);
       ("date", VStr (formatNow now0));
       ("total", str "0");
       ("categoryId", str "other");
       ("items", VArr [obj [("name", str "Coffee"); ("price", str "500");
                            ("categoryId", str "sports")];
                       obj [("name", str "Tea"); ("price", str "300");
                            ("categoryId", str "sports")]])]%string.

Definition cafe_result : value small_int :=
  obj [("storeName", str "Cafe"); ("date", str "2024-01-05");
       ("total", str "2,580"); ("categoryId", str "food");
       ("items", VArr [obj [("name", str "Coffee"); ("price", str "500");
                            ("categoryId", str "food")]])]%string.

(** * Properties *)

(** ** Strings and decimal numerals *)

Lemma jstring_eqb_eq (a b : jstring) : jstring_eqb a b = true <-> a = b.
Proof.
  revert b; induction a as [|x a IH]; intros [|y b]; simpl; split;
    try congruence; try reflexivity.
  - intros H. apply andb_true_iff in H as [Hx Hr].
    apply N.eqb_eq in Hx. apply IH in Hr. congruence.
  - intros H. injection H as -> ->. rewrite N.eqb_refl. simpl. now apply IH.
Qed.

Lemma digits_value_snoc (ds : jstring) (c : code_unit) :
  digits_value (ds ++ [c]) = 10 * digits_value ds + (c - 48).
Proof. unfold digits_value. now rewrite fold_left_app. Qed.

Lemma digit_spec (n : N) :
  n < 10 -> digits_value [48 + n] = n /\ is_digit (48 + n) = true.
Proof.
  intros H. unfold digits_value, is_digit. cbn [fold_left]. split; [lia|].
  apply andb_true_iff; split; apply N.leb_le; lia.
Qed.

Lemma digits_fuel_spec (fuel : nat) :
  forall n, n < 2 ^ N.of_nat (S fuel) ->
    digits_value (digits_fuel (S fuel) n) = n
    /\ forallb is_digit (digits_fuel (S fuel) n) = true
    /\ digits_fuel (S fuel) n <> [].
Proof.
  induction fuel as [|f IH]; intros n Hn.
  - change (2 ^ N.of_nat 1) with 2 in Hn.
    assert (Hlt : (n <? 10) = true) by (apply N.ltb_lt; lia).
    cbn [digits_fuel]. rewrite Hlt.
    destruct (digit_spec n) as [Hv Hd]; [lia|].
    cbn [forallb]. rewrite Hd. repeat split; [exact Hv | discriminate].
  - remember (S f) as g. cbn [digits_fuel]. destruct (n <? 10) eqn:Hlt.
    + apply N.ltb_lt in Hlt. destruct (digit_spec n Hlt) as [Hv Hd].
      cbn [forallb]. rewrite Hd. repeat split; [exact Hv | discriminate].
    + apply N.ltb_ge in Hlt.
      assert (Hq : n / 10 < 2 ^ N.of_nat (S f)).
      { subst g. rewrite Nat2N.inj_succ, N.pow_succ_r' in Hn.
        apply N.Div0.div_lt_upper_bound. lia. }
      subst g. destruct (IH _ Hq) as (Hv & Hd & Hne).
      assert (Hm : n mod 10 < 10) by (apply N.mod_lt; lia).
      assert (Hdm : n = 10 * (n / 10) + n mod 10) by (apply N.div_mod; lia).
      destruct (digit_spec _ Hm) as [_ Hd'].
      repeat split.
      * rewrite digits_value_snoc, Hv. clear - Hdm.
        generalize dependent (n mod 10). generalize (n / 10). intros. lia.
      * rewrite forallb_app, Hd. cbn [forallb]. now rewrite Hd'.
      * intros H. now apply app_eq_nil in H as [_ H].
Qed.

Lemma decimal_spec (n : N) :
  digits_value (decimal n) = n
  /\ forallb is_digit (decimal n) = true
  /\ decimal n <> [].
Proof.
  unfold decimal. apply digits_fuel_spec.
  rewrite Nat2N.inj_succ, N2Nat.id.
  destruct n as [|p]; [reflexivity|].
  apply N.log2_spec. lia.
Qed.

Lemma leading_digits_all (ds rest : jstring) :
  forallb is_digit ds = true ->
  match rest with c :: _ => is_digit c = false | [] => True end ->
  leading_digits (ds ++ rest) = ds.
Proof.
  intros Hd Hr. induction ds as [|d ds IH]; simpl in *.
  - destruct rest as [|c r]; simpl; [reflexivity | now rewrite Hr].
  - apply andb_true_iff in Hd as [H1 H2]. rewrite H1. f_equal. now apply IH.
Qed.

Lemma strip_app (a b : jstring) :
  strip_separators (a ++ b) = strip_separators a ++ strip_separators b.
Proof. apply filter_app. Qed.

Lemma strip_rev (a : jstring) :
  strip_separators (rev a) = rev (strip_separators a).
Proof.
  induction a as [|c a IH]; simpl; [reflexivity|].
  rewrite strip_app, IH. simpl. destruct (is_separator c); simpl;
    [now rewrite app_nil_r | reflexivity].
Qed.

Lemma digit_not_separator (c : code_unit) :
  is_digit c = true -> is_separator c = false.
Proof.
  unfold is_digit, is_separator, ascii_comma, fullwidth_comma. intros H.
  apply andb_true_iff in H as [H1 H2]. apply N.leb_le in H1, H2.
  apply orb_false_iff; split; apply N.eqb_neq; lia.
Qed.

Lemma strip_digits (ds : jstring) :
  forallb is_digit ds = true -> strip_separators ds = ds.
Proof.
  induction ds as [|d ds IH]; simpl; [reflexivity|]. intros H.
  apply andb_true_iff in H as [H1 H2].
  rewrite (digit_not_separator _ H1). simpl. f_equal. now apply IH.
Qed.

Lemma strip_group_rev (r : jstring) :
  forall k, strip_separators (group_rev k r) = strip_separators r.
Proof.
  induction r as [|d r IH]; intros k; simpl; [reflexivity|].
  destruct k as [|[|[|[|k]]]]; simpl; rewrite ?IH; reflexivity.
Qed.

Lemma strip_group3 (ds : jstring) :
  strip_separators (group3 ds) = strip_separators ds.
Proof.
  unfold group3. rewrite strip_rev, strip_group_rev, strip_rev.
  apply rev_involutive.
Qed.

Lemma strip_no_separator (s : jstring) (c : code_unit) :
  In c (strip_separators s) <-> In c s /\ c <> ascii_comma /\ c <> fullwidth_comma.
Proof.
  unfold strip_separators. rewrite filter_In. unfold is_separator.
  rewrite negb_true_iff, orb_false_iff, !N.eqb_neq. tauto.
Qed.

(** ** Rounding to a double *)

Lemma round_scaled (q k : N) :
  2 ^ 52 <= q < 2 ^ 53 -> q * 2 ^ k < 2 ^ 1024 ->
  round_to_double (q * 2 ^ k) = Some (q * 2 ^ k).
Proof.
  intros [Hlo Hhi] Hmax. unfold round_to_double.
  destruct (N.eq_dec k 0) as [-> | Hk].
  - rewrite N.pow_0_r, N.mul_1_r.
    apply N.ltb_lt in Hhi. now rewrite Hhi.
  - assert (Hq : 0 < q) by (apply N.lt_le_trans with (2 ^ 52); [reflexivity | exact Hlo]).
    assert (Hlog : N.log2 (q * 2 ^ k) = k + 52).
    { rewrite N.log2_mul_pow2 by lia. f_equal.
      apply N.log2_unique; [lia|]. change (N.succ 52) with 53. now split. }
    assert (Hbig : (q * 2 ^ k <? 2 ^ 53) = false).
    { apply N.ltb_ge. apply N.le_trans with (q * 2 ^ 1).
      - change (2 ^ 53) with (2 ^ 52 * 2 ^ 1). apply N.mul_le_mono_r. exact Hlo.
      - apply N.mul_le_mono_l. apply N.pow_le_mono_r; lia. }
    rewrite Hbig, Hlog. replace (k + 52 - 52) with k by lia.
    cbv zeta.
    assert (Hp : 2 ^ k <> 0) by (apply N.pow_nonzero; lia).
    rewrite N.div_mul by exact Hp. rewrite N.Div0.mod_mul.
    assert (Hhalf : 0 < 2 ^ (k - 1)).
    { apply N.neq_0_lt_0. apply N.pow_nonzero. lia. }
    assert (H1 : (2 ^ (k - 1) <? 0) = false) by (apply N.ltb_ge; lia).
    assert (H2 : (0 =? 2 ^ (k - 1)) = false) by (apply N.eqb_neq; lia).
    rewrite H1, H2. cbn [orb andb].
    apply N.ltb_lt in Hmax. now rewrite Hmax.
Qed.

Lemma round_to_double_fixed (m r : N) :
  round_to_double m = Some r -> round_to_double r = Some r.
Proof.
  unfold round_to_double at 1.
  destruct (m <? 2 ^ 53) eqn:Hsmall.
  - intros H. injection H as <-. unfold round_to_double. now rewrite Hsmall.
  - apply N.ltb_ge in Hsmall.
    set (e := N.log2 m - 52). set (q := m / 2 ^ e). cbv zeta.
    match goal with
    | |- context [if ?c then q + 1 else q] => set (q' := if c then q + 1 else q)
    end.
    destruct (q' * 2 ^ e <? 2 ^ 1024) eqn:Hmax; [|discriminate].
    intros H. injection H as <-. apply N.ltb_lt in Hmax.
    assert (Hm : 0 < m) by (apply N.lt_le_trans with (2 ^ 53); [reflexivity | exact Hsmall]).
    assert (Hl : 53 <= N.log2 m) by (apply N.log2_le_pow2; assumption).
    destruct (N.log2_spec m Hm) as [Hlo Hhi].
    assert (He : N.log2 m = e + 52) by (unfold e; lia).
    assert (Hp : 2 ^ e <> 0) by (apply N.pow_nonzero; lia).
    assert (Hq : 2 ^ 52 <= q < 2 ^ 53).
    { unfold q. split.
      - apply N.div_le_lower_bound; [exact Hp|].
        rewrite N.mul_comm, <- N.pow_add_r, (N.add_comm 52), <- He. exact Hlo.
      - apply N.Div0.div_lt_upper_bound.
        rewrite <- N.pow_add_r. replace (e + 53) with (N.succ (N.log2 m)) by lia.
        exact Hhi. }
    assert (Hq' : q' = q \/ q' = q + 1) by (unfold q'; match goal with |- context [if ?c then _ else _] => destruct c end; auto).
    destruct (N.eq_dec q' (2 ^ 53)) as [Htop | Hnot].
    + rewrite Htop in *. change (2 ^ 53) with (2 ^ 52 * 2 ^ 1).
      rewrite <- N.mul_assoc, <- N.pow_add_r.
      apply round_scaled.
      * split; [apply N.le_refl | reflexivity].
      * rewrite N.pow_add_r, N.mul_assoc. exact Hmax.
    + apply round_scaled; [|exact Hmax].
      destruct Hq as [Hq1 Hq2]. split; destruct Hq' as [-> | ->]; lia.
Qed.

Lemma round_small (m : N) : m < 2 ^ 53 -> round_to_double m = Some m.
Proof. intros H. unfold round_to_double. apply N.ltb_lt in H. now rewrite H. Qed.

(** ** parseInt and the ja-JP rendering *)

Lemma digit_not_white_space (c : code_unit) :
  is_digit c = true -> is_white_space c = false.
Proof.
  unfold is_digit, is_white_space. intros H.
  apply andb_true_iff in H as [H1 H2]. apply N.leb_le in H1, H2.
  repeat (apply orb_false_iff; split);
    try (apply N.eqb_neq; lia);
    apply andb_false_iff; [right | left]; apply N.leb_gt; lia.
Qed.

Lemma digit_not_sign (c : code_unit) :
  is_digit c = true -> (c =? minus_sign) = false /\ (c =? plus_sign) = false.
Proof.
  unfold is_digit, minus_sign, plus_sign. intros H.
  apply andb_true_iff in H as [H1 H2]. apply N.leb_le in H1, H2.
  split; apply N.eqb_neq; lia.
Qed.

Lemma leading_digits_nonempty (ds rest : jstring) :
  forallb is_digit ds = true -> ds <> [] -> stops rest = true ->
  leading_digits (ds ++ rest) = ds.
Proof.
  intros Hd _ Hr. apply leading_digits_all; [exact Hd|].
  destruct rest as [|c r]; [exact I|]. now apply negb_true_iff in Hr.
Qed.

Lemma parseInt10_numeral (s : sign) (ds rest : jstring) :
  forallb is_digit ds = true -> ds <> [] -> stops rest = true ->
  parseInt10 (sign_text s ++ ds ++ rest)
  = to_number (sign_negative s) (digits_value ds).
Proof.
  intros Hd Hne Hr.
  pose proof (leading_digits_nonempty ds rest Hd Hne Hr) as Hl.
  destruct ds as [|d ds']; [congruence|].
  assert (Hdig : is_digit d = true) by (now apply andb_true_iff in Hd as [? _]).
  unfold parseInt10. destruct s; cbn [sign_text app sign_negative].
  - cbn [trimStart]. rewrite (digit_not_white_space _ Hdig).
    destruct (digit_not_sign _ Hdig) as [-> ->]. cbn [orb].
    change (d :: ds' ++ rest) with ((d :: ds') ++ rest). now rewrite Hl.
  - cbn [trimStart]. change (is_white_space plus_sign) with false. cbv iota.
    change (plus_sign =? minus_sign) with false.
    change (plus_sign =? plus_sign) with true. cbn [orb].
    change (d :: ds' ++ rest) with ((d :: ds') ++ rest). now rewrite Hl.
  - cbn [trimStart]. change (is_white_space minus_sign) with false. cbv iota.
    change (minus_sign =? minus_sign) with true. cbn [orb].
    change (d :: ds' ++ rest) with ((d :: ds') ++ rest). now rewrite Hl.
Qed.

Lemma trimStart_white (ws t : jstring) :
  forallb is_white_space ws = true -> trimStart (ws ++ t) = trimStart t.
Proof.
  induction ws as [|c ws IH]; simpl; [reflexivity|]. intros H.
  apply andb_true_iff in H as [-> H]. now apply IH.
Qed.

Lemma parseInt10_white (ws t : jstring) :
  forallb is_white_space ws = true -> parseInt10 (ws ++ t) = parseInt10 t.
Proof. intros H. unfold parseInt10. now rewrite (trimStart_white _ _ H). Qed.

Lemma to_number_is_amount (neg : bool) (m : N) :
  is_amount (to_number neg m) = true.
Proof.
  unfold to_number. destruct (round_to_double m) as [r|] eqn:H; [|reflexivity].
  cbn [is_amount]. rewrite (round_to_double_fixed _ _ H). apply N.eqb_refl.
Qed.

Lemma to_number_negative (neg : bool) (m : N) :
  negative (to_number neg m) = neg.
Proof. unfold to_number. now destruct (round_to_double m). Qed.

Lemma to_number_not_NaN (neg : bool) (m : N) : isNaN (to_number neg m) = false.
Proof. unfold to_number. now destruct (round_to_double m). Qed.

Lemma parseInt10_cases (s : jstring) :
  parseInt10 s = NaN \/ exists neg m, parseInt10 s = to_number neg m.
Proof.
  unfold parseInt10. destruct (leading_digits _); [now left | right; eauto].
Qed.

Lemma parseInt10_negative (s : jstring) :
  negative (parseInt10 s) = minus_led s.
Proof.
  unfold parseInt10, minus_led. destruct (trimStart s) as [|c t]; [reflexivity|].
  destruct (c =? minus_sign) eqn:Hc; cbn [orb andb].
  - destruct t as [|d t']; [reflexivity|]. cbn [leading_digits].
    destruct (is_digit d); [apply to_number_negative | reflexivity].
  - assert (Hno : match t with [] => false | _ :: _ => false end = false)
      by (now destruct t).
    rewrite Hno.
    destruct (c =? plus_sign);
      match goal with |- context [leading_digits ?l] => destruct (leading_digits l) end;
      try reflexivity; apply to_number_negative.
Qed.

(** The decimal found by the search reads back as the double. *)
Lemma shortest_at_reads_as (m : N) :
  reads_as m m = true -> forall j, reads_as m (shortest_at j m) = true.
Proof.
  intros Hm j. induction j as [|j IH]; cbn [shortest_at];
    destruct (reads_as m (m / 10 ^ _ * 10 ^ _)) eqn:Hlo;
    destruct (reads_as m (m / 10 ^ _ * 10 ^ _ + 10 ^ _)) eqn:Hhi;
    try assumption;
    repeat match goal with
           | |- context [if ?c then _ else _] => destruct c
           end; assumption.
Qed.

Lemma shortest_reads_as (m : N) :
  round_to_double m = Some m -> round_to_double (shortest m) = Some m.
Proof.
  intros Hm.
  assert (H : reads_as m m = true) by (unfold reads_as; rewrite Hm; apply N.eqb_refl).
  pose proof (shortest_at_reads_as m H (pred (List.length (decimal m)))) as Hs.
  fold (shortest m) in Hs. unfold reads_as in Hs.
  destruct (round_to_double (shortest m)) as [r|]; [|discriminate].
  apply N.eqb_eq in Hs. now subst r.
Qed.

Lemma format_parse (x : number) :
  is_amount x = true -> finite x = true ->
  parseInt10 (strip_separators (toLocaleString x)) = x.
Proof.
  destruct x as [| |neg m]; try discriminate. intros Ha _.
  cbn [is_amount] in Ha. destruct (round_to_double m) as [r|] eqn:Hr; [|discriminate].
  apply N.eqb_eq in Ha. subst r. apply shortest_reads_as in Hr.
  destruct (decimal_spec (shortest m)) as (Hv & Hd & Hne).
  cbn [toLocaleString]. rewrite strip_app, strip_group3, (strip_digits _ Hd).
  pose proof (parseInt10_numeral (if neg then Minus else NoSign)
                (decimal (shortest m)) [] Hd Hne eq_refl) as H.
  rewrite app_nil_r, Hv in H. unfold to_number in H. rewrite Hr in H.
  destruct neg; cbn [sign_text sign_negative] in H; exact H.
Qed.

(** ** Conversion to strings *)

Section Printing.
Context {num : Type} {NUM : JsNumber num}.

Lemma nullish_printable (v : value num) : nullish v = true -> unprintable v = false.
Proof. now destruct v. Qed.

(** ToString fails exactly on the unprintable values. *)
Lemma ToString_spec (v : value num) :
  if unprintable v then ToString v = Throw (TypeError NotPrimitive)
  else exists s, ToString v = Ok s.
Proof.
  induction v as [| | b | n | s | xs IH | fields _] using value_induction;
    cbn [unprintable ToString]; eauto.
  - induction IH as [|x r Hx _ IHr]; cbn [existsb join]; [eauto|].
    destruct (nullish x) eqn:Hn.
    + rewrite (nullish_printable _ Hn). cbn [orb bind].
      destruct r as [|y r']; [cbn [existsb]; eauto|].
      destruct (existsb unprintable (y :: r')).
      * fold (join ToString (y :: r')). now rewrite IHr.
      * fold (join ToString (y :: r')). destruct IHr as (t & ->). cbn [bind]. eauto.
    + destruct (unprintable x); cbn [orb].
      * now rewrite Hx.
      * destruct Hx as (s & ->). cbn [bind].
        destruct r as [|y r']; [cbn [existsb]; eauto|].
        destruct (existsb unprintable (y :: r')).
        -- fold (join ToString (y :: r')). now rewrite IHr.
        -- fold (join ToString (y :: r')). destruct IHr as (t & ->). cbn [bind]. eauto.
  - destruct (has_own (lit "toString") fields); eauto.
Qed.

Lemma toString_spec (v : value num) :
  nullish v = false ->
  if unprintable v then exists e, toString v = Throw e
  else exists s, toString v = Ok s.
Proof.
  intros Hn. pose proof (ToString_spec v) as H.
  destruct v; try discriminate; cbn [toString unprintable] in *; try exact H.
  - destruct (existsb unprintable xs); eauto.
  - destruct (has_own (lit "toString") fields); eauto.
Qed.

Lemma toString_throws (v : value num) (e : js_error) :
  toString v = Throw e -> exists te, e = TypeError te.
Proof.
  pose proof (ToString_spec v) as H.
  destruct v; cbn [toString unprintable] in *; try discriminate;
    try (intros E; injection E as <-; eauto; fail).
  - destruct (existsb unprintable xs).
    + rewrite H. intros E. injection E as <-. eauto.
    + destruct H as (s & ->). discriminate.
  - destruct (has_own (lit "toString") fields); [|discriminate].
    intros E. injection E as <-. eauto.
Qed.

Lemma amount_throws (v : value num) (e : js_error) :
  amount v = Throw e -> exists te, e = TypeError te.
Proof.
  unfold amount, raw_amount.
  destruct (toString (or_else v (VStr (lit "0")))) as [s|e'] eqn:H; cbn [bind];
    [discriminate|].
  intros E. injection E as <-. now apply toString_throws in H.
Qed.

Lemma truthy_not_nullish (v : value num) : truthy v = true -> nullish v = false.
Proof. now destruct v. Qed.

(** The amount of a field is computed exactly when the field can be
    rendered. *)
Lemma amount_returns (v : value num) :
  (exists x, amount v = Ok x) <-> printable_amount v = true.
Proof.
  unfold printable_amount, amount, raw_amount, or_else.
  destruct (truthy v) eqn:Ht; cbn [andb negb].
  - pose proof (toString_spec v (truthy_not_nullish _ Ht)) as H.
    destruct (unprintable v); cbn [negb].
    + destruct H as (e & ->). cbn [bind]. split; [intros (x & Hx) |]; discriminate.
    + destruct H as (s & ->). cbn [bind]. split; eauto.
  - cbn [toString ToString bind]. split; eauto.
Qed.

Lemma amount_meets_printable (v : value num) :
  amount_meets (fun _ => true) v = printable_amount v.
Proof.
  pose proof (amount_returns v) as H. unfold amount_meets.
  destruct (amount v) as [x|e]; destruct (printable_amount v); try reflexivity.
  - assert (false = true) by (apply H; eauto). discriminate.
  - assert (exists x, Throw e = Ok x) as (x & Hx) by (now apply H). discriminate.
Qed.

Lemma renders_amounts_meet (data : value num) :
  renders data = amounts_meet (fun _ => true) data.
Proof.
  unfold renders, amounts_meet. rewrite amount_meets_printable. f_equal.
  induction (kept_items data) as [|item l IH]; [reflexivity|].
  cbn [forallb]. now rewrite amount_meets_printable, IH.
Qed.
End Printing.

(** ** The normalisation stage, step by step *)

Section NormalizerFacts.
Context {num : Type} {NUM : JsNumber num}.
Implicit Types (data item out : value num) (now : clock).

Lemma mapM_Forall2 {A B} (f : A -> result B) (l : list A) (ys : list B) :
  mapM f l = Ok ys <-> Forall2 (fun x y => f x = Ok y) l ys.
Proof.
  revert ys; induction l as [|x l IH]; intros ys; cbn [mapM]; split.
  - intros H. injection H as <-. constructor.
  - intros H. now inversion H.
  - destruct (f x) as [y|e] eqn:Hx; cbn [bind]; [|discriminate].
    destruct (mapM f l) as [zs|e] eqn:Hl; cbn [bind]; [|discriminate].
    intros H. injection H as <-. constructor; [exact Hx | now apply IH].
  - intros H. inversion H as [|? y ? zs Hx Hl]; subst.
    rewrite Hx. cbn [bind]. apply IH in Hl. now rewrite Hl.
Qed.

Lemma number_or_zero_is_amount (raw : jstring) :
  is_amount (number_or_zero raw) = true.
Proof.
  unfold number_or_zero.
  destruct (parseInt10_cases raw) as [-> | (neg & m & ->)]; [reflexivity|].
  rewrite to_number_not_NaN. apply to_number_is_amount.
Qed.

Lemma number_or_zero_negative (raw : jstring) :
  negative (number_or_zero raw) = minus_led raw.
Proof.
  unfold number_or_zero. rewrite <- parseInt10_negative.
  now destruct (parseInt10 raw).
Qed.

Lemma amount_inv (v : value num) (x : number) :
  amount v = Ok x <->
  exists raw, raw_amount v = Ok raw /\ x = number_or_zero raw.
Proof.
  unfold amount. destruct (raw_amount v) as [raw|e]; cbn [bind]; split.
  - intros H. injection H as <-. eauto.
  - intros (r & H & ->). now injection H as ->.
  - discriminate.
  - intros (r & H & _). discriminate.
Qed.

Lemma amount_is_amount (v : value num) (x : number) :
  amount v = Ok x -> is_amount x = true.
Proof.
  intros H. apply amount_inv in H as (raw & _ & ->).
  apply number_or_zero_is_amount.
Qed.

Lemma mapItem_eq data item :
  mapItem data item
  = do p <- amount (prop item (lit "price")); Ok (item_of data item p).
Proof. reflexivity. Qed.

Lemma normalize_eq now data :
  nullish data = false ->
  normalize now data
  = do total <- amount (prop data (lit "total"));
    do mapped <- mapM (mapItem data) (kept_items data);
    Ok (receipt_of now data total mapped).
Proof.
  intros H. unfold normalize, get. rewrite H. cbn [bind].
  destruct (amount _); [|reflexivity]. cbn [bind].
  unfold kept_items. destruct (mapM _ _); reflexivity.
Qed.

Lemma normalize_nullish now data :
  nullish data = true ->
  normalize now data = Throw (TypeError (ReadOfNullish (lit "storeName"))).
Proof. intros H. unfold normalize, get. now rewrite H. Qed.

(** What a successful run computed. *)
Lemma normalize_inv now data out :
  normalize now data = Ok out ->
  nullish data = false
  /\ exists total mapped,
       amount (prop data (lit "total")) = Ok total
       /\ Forall2 (fun item m =>
                     exists p, amount (prop item (lit "price")) = Ok p
                               /\ m = item_of data item p)
                  (kept_items data) mapped
       /\ out = receipt_of now data total mapped.
Proof.
  intros H. destruct (nullish data) eqn:Hn.
  - rewrite (normalize_nullish _ _ Hn) in H. discriminate.
  - split; [reflexivity|]. rewrite (normalize_eq _ _ Hn) in H.
    destruct (amount (prop data (lit "total"))) as [total|] eqn:Ht;
      cbn [bind] in H; [|discriminate].
    destruct (mapM _ _) as [mapped|] eqn:Hm; cbn [bind] in H; [|discriminate].
    injection H as <-. exists total, mapped. repeat split.
    apply mapM_Forall2 in Hm. eapply Forall2_impl; [|exact Hm].
    intros item m Hi. cbv beta in Hi. rewrite mapItem_eq in Hi.
    destruct (amount (prop item (lit "price"))) as [p|];
      cbn [bind] in Hi; [|discriminate].
    injection Hi as <-. eauto.
Qed.

(** When a run succeeds, and with which amounts. *)
Lemma normalize_returns (P : number -> bool) now data :
  nullish data = false -> amounts_meet P data = true ->
  exists total mapped,
    amount (prop data (lit "total")) = Ok total /\ P total = true
    /\ Forall2 (fun item m =>
                  exists p, amount (prop item (lit "price")) = Ok p
                            /\ P p = true /\ m = item_of data item p)
               (kept_items data) mapped
    /\ normalize now data = Ok (receipt_of now data total mapped).
Proof.
  intros Hn Hr. rewrite (normalize_eq _ _ Hn).
  unfold amounts_meet in Hr. apply andb_true_iff in Hr as [Ht Hi].
  unfold amount_meets in Ht.
  destruct (amount (prop data (lit "total"))) as [total|]; [|discriminate].
  cbn [bind]. exists total.
  assert (Hm : exists mapped,
             Forall2 (fun item m =>
                        exists p, amount (prop item (lit "price")) = Ok p
                                  /\ P p = true /\ m = item_of data item p)
                     (kept_items data) mapped).
  { induction (kept_items data) as [|item l IH]; [exists []; constructor|].
    cbn [forallb] in Hi. apply andb_true_iff in Hi as [Hp Hl].
    destruct (IH Hl) as (ms & Hms). unfold amount_meets in Hp.
    destruct (amount (prop item (lit "price"))) as [p|] eqn:Ha; [|discriminate].
    exists (item_of data item p :: ms). constructor; [|exact Hms]. eauto. }
  destruct Hm as (mapped & Hm). exists mapped. repeat split; try assumption.
  assert (Hok : mapM (mapItem data) (kept_items data) = Ok mapped).
  { apply mapM_Forall2. eapply Forall2_impl; [|exact Hm].
    intros item m (p & Ha & _ & ->). rewrite mapItem_eq, Ha. reflexivity. }
  rewrite Hok. reflexivity.
Qed.

Lemma mapM_throws {A B} (f : A -> result B) (l : list A) (e : js_error) :
  mapM f l = Throw e -> exists x, In x l /\ f x = Throw e.
Proof.
  induction l as [|x l IH]; cbn [mapM]; [discriminate|].
  destruct (f x) as [y|e'] eqn:Hx; cbn [bind].
  - destruct (mapM f l) as [ys|e'']; cbn [bind]; [discriminate|].
    intros E. destruct (IH E) as (z & Hin & Hz). exists z. split; [now right | exact Hz].
  - intros E. injection E as <-. exists x. split; [now left | exact Hx].
Qed.

(** A run that fails throws a TypeError. *)
Lemma normalize_throws now data e :
  normalize now data = Throw e -> exists te, e = TypeError te.
Proof.
  destruct (nullish data) eqn:Hn.
  - rewrite (normalize_nullish _ _ Hn). intros E. injection E as <-. eauto.
  - rewrite (normalize_eq _ _ Hn).
    destruct (amount (prop data (lit "total"))) as [total|e'] eqn:Ht; cbn [bind].
    + destruct (mapM (mapItem data) (kept_items data)) as [mapped|e''] eqn:Hm;
        cbn [bind]; [discriminate|].
      intros E. injection E as <-.
      apply mapM_throws in Hm as (item & _ & Hi). rewrite mapItem_eq in Hi.
      destruct (amount (prop item (lit "price"))) as [p|e3] eqn:Hp; cbn [bind] in Hi;
        [discriminate|].
      injection Hi as <-. now apply amount_throws in Hp.
    + intros E. injection E as <-. now apply amount_throws in Ht.
Qed.

Lemma normalize_renders now data out :
  normalize now data = Ok out -> renders data = true.
Proof.
  intros H. apply normalize_inv in H as (_ & total & mapped & Ht & Hm & _).
  rewrite renders_amounts_meet.
  unfold amounts_meet, amount_meets. rewrite Ht. cbn [andb].
  induction Hm as [|item m l ms (p & Hp & _) _ IH]; [reflexivity|].
  cbn [forallb]. now rewrite Hp, IH.
Qed.
End NormalizerFacts.

(** ** Shapes of the output *)

Section OutputFacts.
Context {num : Type} {NUM : JsNumber num}.
Implicit Types (data item out : value num) (now : clock).

Lemma or_else_truthy (a b : value num) :
  truthy b = true -> truthy (or_else a b) = true.
Proof. intros H. unfold or_else. now destruct (truthy a) eqn:Ha. Qed.

Lemma or_else_left (a b : value num) : truthy a = true -> or_else a b = a.
Proof. intros H. unfold or_else. now rewrite H. Qed.

Lemma formatNow_nonempty now : formatNow now <> [].
Proof.
  unfold formatNow. destruct (decimal_spec (year now)) as (_ & _ & H).
  destruct (decimal (year now)); [congruence | discriminate].
Qed.

Lemma toLocaleString_nonempty (x : number) : toLocaleString x <> [].
Proof.
  destruct x as [|neg|neg m]; cbn [toLocaleString]; try discriminate.
  - now destruct neg.
  - destruct neg; [discriminate|]. cbn [app].
    destruct (decimal_spec (shortest m)) as (_ & Hd & Hne). intros H.
    apply Hne. rewrite <- (strip_digits _ Hd), <- strip_group3, H. reflexivity.
Qed.

Lemma truthy_text (s : jstring) : s <> [] -> truthy (@VStr num s) = true.
Proof. now destruct s. Qed.

Lemma category_nonempty (c : jstring) : In c categories -> c <> [].
Proof.
  unfold categories. cbn [map In].
  intros H; repeat (destruct H as [<- | H]; [discriminate|]); contradiction.
Qed.

Lemma includes_valid (v : value num) : includes v = true <-> valid_category v.
Proof.
  unfold includes, valid_category. split.
  - destruct v; try discriminate. intros H.
    apply existsb_exists in H as (c & Hin & Heq).
    apply jstring_eqb_eq in Heq. subst. eauto.
  - intros (c & -> & Hin). apply existsb_exists. exists c.
    split; [exact Hin | now apply jstring_eqb_eq].
Qed.

Lemma valid_category_truthy (v : value num) : valid_category v -> truthy v = true.
Proof.
  intros (c & -> & Hin). apply truthy_text. now apply category_nonempty.
Qed.

Lemma resolve_category_valid (v : value num) :
  valid_category (resolve_category v).
Proof.
  unfold resolve_category. destruct (truthy v && includes v) eqn:H.
  - apply andb_true_iff in H as [_ H]. now apply includes_valid.
  - exists (lit "other"). split; [reflexivity|].
    unfold categories. cbn [map In]. tauto.
Qed.

Lemma resolve_category_fixed (v : value num) :
  valid_category v -> resolve_category v = v.
Proof.
  intros H. unfold resolve_category.
  rewrite (valid_category_truthy _ H).
  apply includes_valid in H. now rewrite H.
Qed.

Lemma raw_items_receipt now data total mapped :
  items (receipt_of now data total mapped)
  = match mapped with
    | _ :: _ => mapped
    | [] => [fallback_item total (resolve_category (prop data (lit "categoryId")))]
    end.
Proof. reflexivity. Qed.

Lemma normalize_total now data out :
  normalize now data = Ok out ->
  exists x, amount (prop data (lit "total")) = Ok x
            /\ prop out (lit "total") = VStr (toLocaleString x).
Proof.
  intros H. apply normalize_inv in H as (_ & total & mapped & Ht & _ & ->).
  exists total. split; [exact Ht | reflexivity].
Qed.

Lemma kept_truthy_name item l : In item (filter keep l) ->
  truthy item = true /\ truthy (prop item (lit "name")) = true.
Proof.
  intros H. apply filter_In in H as [_ H]. now apply andb_true_iff in H.
Qed.

Lemma Forall2_right {A B} (R : A -> B -> Prop) (Q : B -> Prop) l ms :
  Forall2 R l ms -> (forall x y, In x l -> R x y -> Q y) -> Forall Q ms.
Proof.
  induction 1 as [|x y l ms Hxy _ IH]; intros H; constructor.
  - apply (H x y); [now left | exact Hxy].
  - apply IH. intros a b Ha. apply H. now right.
Qed.

(** A successful run gives a receipt in normal shape. *)
Lemma normalize_normal (P : number -> bool) now data :
  nullish data = false -> amounts_meet P data = true ->
  exists out, normalize now data = Ok out /\ normal_receipt P out.
Proof.
  intros Hn Hr.
  destruct (normalize_returns P now data Hn Hr) as (total & mapped & Ht & HP & Hm & Hrun).
  exists (receipt_of now data total mapped). split; [exact Hrun|].
  pose proof (resolve_category_valid (prop data (lit "categoryId"))) as Hc.
  assert (Hfmt : formatted P (@VStr num (toLocaleString total))).
  { exists total. repeat split; [now apply amount_is_amount with (v := prop data (lit "total")) | exact HP]. }
  unfold normal_receipt, receipt_of.
  do 5 eexists. split; [reflexivity|]. repeat split.
  - apply or_else_truthy. now destruct unknown_store eqn:E.
  - apply or_else_truthy. apply truthy_text, formatNow_nonempty.
  - exact Hfmt.
  - exact Hc.
  - now destruct mapped.
  - destruct mapped as [|m ms].
    + constructor; [|constructor]. unfold normal_item, fallback_item.
      do 3 eexists. split; [reflexivity|]. repeat split.
      * exact Hfmt.
      * now apply valid_category_truthy.
    + eapply Forall2_right; [exact Hm|].
      intros item y Hin (p & Hp & HPp & ->). unfold normal_item, item_of.
      do 3 eexists. split; [reflexivity|]. repeat split.
      * now apply kept_truthy_name in Hin.
      * exists p. repeat split; [now apply amount_is_amount in Hp | exact HPp].
      * do 2 apply or_else_truthy. reflexivity.
Qed.

Lemma amount_formatted (x : number) :
  is_amount x = true -> finite x = true ->
  amount (@VStr num (toLocaleString x)) = Ok x.
Proof.
  intros Ha Hf. unfold amount, raw_amount.
  rewrite or_else_left by apply truthy_text, toLocaleString_nonempty.
  cbn [toString ToString bind]. f_equal. unfold number_or_zero.
  rewrite (format_parse _ Ha Hf). now destruct x.
Qed.

(** A receipt in normal shape with finite amounts is a fixed point. *)
Lemma normalize_fixed now (r : value num) :
  normal_receipt finite r -> normalize now r = Ok r.
Proof.
  intros (s & d & t & c & entries & -> & Hs & Hd & (x & -> & Hx & Hfx) & Hc & Hne & Hitems).
  rewrite normalize_eq by reflexivity.
  change (prop _ (lit "total")) with (@VStr num (toLocaleString x)).
  rewrite (amount_formatted _ Hx Hfx). cbn [bind].
  assert (Hkept : filter keep entries = entries).
  { clear Hne. induction Hitems as [|item l (n & p & k & -> & Hn & _ & _) _ IH];
      [reflexivity|].
    cbn [filter]. unfold keep at 1.
    change (prop _ (lit "name")) with n. rewrite Hn. cbn [truthy andb].
    now rewrite IH. }
  unfold kept_items. change (items _) with entries. rewrite Hkept.
  set (r := VObj _).
  assert (Hmap : mapM (mapItem r) entries = Ok entries).
  { apply mapM_Forall2. clear Hne Hkept.
    induction Hitems as [|item l (n & p & k & -> & Hn & (y & -> & Hy & Hfy) & Hk) _ IH];
      constructor; [|exact IH].
    rewrite mapItem_eq.
    change (prop _ (lit "price")) with (@VStr num (toLocaleString y)).
    rewrite (amount_formatted _ Hy Hfy). cbn [bind]. unfold item_of.
    change (prop (VObj [(lit "name", n); _; _]) (lit "name")) with n.
    change (prop (VObj [(lit "name", n); _; _]) (lit "categoryId")) with k.
    now rewrite (or_else_left k) by exact Hk. }
  rewrite Hmap. cbn [bind]. unfold receipt_of, r.
  change (prop _ (lit "storeName")) with s.
  change (prop _ (lit "date")) with d.
  change (prop _ (lit "categoryId")) with c.
  rewrite (or_else_left s) by exact Hs. rewrite (or_else_left d) by exact Hd.
  rewrite (resolve_category_fixed _ Hc).
  destruct entries; [congruence | reflexivity].
Qed.
End OutputFacts.

(** * The claims of the specification *)

(** ** Item categories *)

(** C1: the item-level category is not checked against the enumeration.  An
    item whose categoryId is "sports" keeps it, and an item without one
    inherits the raw receipt-level "sports" rather than the resolved "other",
    while the receipt-level category of the same run is resolved to "other". *)
Theorem item_category_unchecked :
  is_json sports_receipt = true
  /\ normalize now0 sports_receipt
     = Ok (obj [("storeName", VStr unknown_store);
                ("date", VStr (formatNow now0));
                ("total", str "0");
                ("categoryId", str "other");
                ("items", VArr [obj [("name", str "Coffee"); ("price", str "500");
                                     ("categoryId", str "sports")];
                                obj [("name", str "Tea"); ("price", str "300");
                                     ("categoryId", str "sports")]])]%string)
  /\ includes (str "sports") = false.
Proof. repeat split; vm_compute; reflexivity. Qed.

Section Claims.
Context {num : Type} {NUM : JsNumber num}.
Implicit Types (data item out : value num) (now : clock).

(** What the code does for an item category: the first truthy value among
    the item's own, the raw receipt-level one and "other". *)
Lemma item_category data item p :
  prop (item_of data item p) (lit "categoryId")
  = or_else (prop item (lit "categoryId"))
            (or_else (prop data (lit "categoryId")) (VStr (lit "other"))).
Proof. reflexivity. Qed.

(** ** Totality and the shape of the result *)

(** C2 (amended): the normalisation stage returns exactly on the inputs
    that are neither null nor undefined and whose amount fields convert to
    text, and throws a TypeError on the others; what it returns is a receipt
    with a truthy storeName and date, a total and prices that render amounts
    (never NaN), a valid category, a non-empty item list and a truthy name
    in every item. *)
Theorem normalize_returns_normal_receipt now data :
  ((exists out, normalize now data = Ok out)
   <-> nullish data = false /\ renders data = true)
  /\ (forall out, normalize now data = Ok out ->
                  normal_receipt (fun _ => true) out)
  /\ (forall e, normalize now data = Throw e -> exists te, e = TypeError te).
Proof.
  split; [split | split; [|apply normalize_throws]].
  - intros (out & H). split; [now apply normalize_inv in H | now apply normalize_renders in H].
  - intros (Hn & Hr). rewrite renders_amounts_meet in Hr.
    destruct (normalize_normal (fun _ => true) now data Hn Hr) as (out & H & _).
    eauto.
  - intros out H.
    assert (Hn : nullish data = false) by (now apply normalize_inv in H).
    pose proof (normalize_renders _ _ _ H) as Hr. rewrite renders_amounts_meet in Hr.
    destruct (normalize_normal (fun _ => true) now data Hn Hr) as (out' & H' & Hnormal).
    congruence.
Qed.

(** ** Signs of the amounts *)

Lemma group_rev_chars (c : code_unit) (r : jstring) :
  forall k, In c (group_rev k r) -> In c r \/ c = ascii_comma.
Proof.
  induction r as [|d r IH]; intros k H; [contradiction|].
  cbn [group_rev] in H.
  destruct k as [|[|[|[|k]]]]; cbn [In] in *;
    repeat match goal with
           | H : _ \/ _ |- _ => destruct H as [H | H]
           | H : In c (group_rev _ _) |- _ => apply IH in H
           end; auto.
Qed.

Lemma group3_chars (c : code_unit) (ds : jstring) :
  In c (group3 ds) -> In c ds \/ c = ascii_comma.
Proof.
  unfold group3. rewrite <- in_rev. intros H.
  apply group_rev_chars in H as [H | H]; [left; now apply in_rev | now right].
Qed.

(** The rendering starts with a minus sign exactly for a negative amount. *)
Lemma negative_rendering (x : number) :
  is_amount x = true ->
  (negative x = true <-> exists t, toLocaleString x = minus_sign :: t).
Proof.
  destruct x as [|neg|neg m]; [discriminate| |]; intros _;
    cbn [negative toLocaleString]; destruct neg; cbn [app]; split;
    try discriminate; try reflexivity; try (intros _; eexists; reflexivity).
  - intros (t & H). discriminate.
  - intros (t & H).
    assert (Hin : In minus_sign (group3 (decimal (shortest m))))
      by (rewrite H; now left).
    apply group3_chars in Hin as [Hin | Hin]; [|discriminate].
    destruct (decimal_spec (shortest m)) as (_ & Hd & _).
    rewrite forallb_forall in Hd. apply Hd in Hin. discriminate.
Qed.

Lemma renders_text_intro (raw : jstring) :
  renders_text raw (@VStr num (toLocaleString (number_or_zero raw))).
Proof.
  pose proof (number_or_zero_is_amount raw) as Ha.
  pose proof (number_or_zero_negative raw) as Hn.
  repeat split; try assumption.
  - intros H. rewrite <- Hn in H.
    apply (negative_rendering _ Ha) in H as (t & ->). eauto.
  - intros (t & H). injection H as H. rewrite <- Hn.
    apply (negative_rendering _ Ha). eauto.
Qed.

(** C3 (amended): the total and every item price render a signed amount,
    an integer that a double holds or an infinity, never NaN.  Each amount
    is read from the text of its own field: the total from the raw total,
    the price of the n-th item of the result from the price of the n-th
    kept item, and the price of the placeholder item from the raw total.
    It is negative, and printed with a minus sign, exactly when that
    comma-stripped text starts, after white space, with a minus sign and a
    digit; no amount is forced to be non-negative. *)
Theorem amounts_keep_their_sign now data out :
  normalize now data = Ok out ->
  exists raw,
    raw_amount (prop data (lit "total")) = Ok raw
    /\ renders_text raw (prop out (lit "total"))
    /\ (kept_items data = [] ->
        exists o, items out = [o] /\ renders_text raw (prop o (lit "price")))
    /\ (kept_items data <> [] ->
        Forall2 (fun item o =>
                   exists raw',
                     raw_amount (prop item (lit "price")) = Ok raw'
                     /\ renders_text raw' (prop o (lit "price")))
                (kept_items data) (items out)).
Proof.
  intros H. apply normalize_inv in H as (_ & total & mapped & Ht & Hm & ->).
  apply amount_inv in Ht as (raw & Hraw & ->). exists raw.
  split; [exact Hraw | split; [apply renders_text_intro | split]];
    rewrite raw_items_receipt.
  - intros Hnone. rewrite Hnone in Hm. inversion Hm; subst.
    eexists. split; [reflexivity | apply renders_text_intro].
  - intros Hsome. destruct Hm as [|item m l ms Hitem Hrest]; [congruence|].
    assert (Hall : Forall2 (fun item m =>
                              exists p, amount (prop item (lit "price")) = Ok p
                                        /\ m = item_of data item p)
                           (item :: l) (m :: ms)) by (now constructor).
    eapply Forall2_impl; [|exact Hall].
    intros item' o (p & Hp & ->). cbv beta.
    apply amount_inv in Hp as (raw' & Hraw' & ->). exists raw'.
    split; [exact Hraw' | apply renders_text_intro].
Qed.
End Claims.

(** C2, as stated, fails on null, which is what [JSON.parse] makes of the
    text null: the first property read throws. *)
Lemma normalize_null_throws :
  is_json (@VNull small_int) = true
  /\ normalize now0 (@VNull small_int)
     = Throw (TypeError (ReadOfNullish (lit "storeName"))).
Proof. split; reflexivity. Qed.

Lemma normalize_returns_normal_receipt_witness :
  (exists out, normalize now0 comma_total = Ok out)
  /\ (nullish comma_total = false /\ renders comma_total = true)
  /\ normal_receipt (fun _ => true)
       (obj [("storeName", VStr unknown_store); ("date", VStr (formatNow now0));
             ("total", str "2,580"); ("categoryId", str "other");
             ("items", VArr [obj [("name", VStr generic_item);
                                  ("price", str "2,580");
                                  ("categoryId", str "other")]])]%string)
  /\ (exists te, TypeError (ReadOfNullish (lit "storeName")) = TypeError te).
Proof.
  pose proof (normalize_returns_normal_receipt now0 comma_total) as (Hiff & Hshape & _).
  pose proof (normalize_returns_normal_receipt now0 (@VNull small_int)) as (_ & _ & Hthrow).
  assert (Hrun : exists out, normalize now0 comma_total = Ok out)
    by (apply Hiff; split; vm_compute; reflexivity).
  split; [exact Hrun | split; [|split]].
  - apply Hiff. exact Hrun.
  - apply Hshape. vm_compute. reflexivity.
  - apply Hthrow. reflexivity.
Defined.

(** C3, as stated, fails on a total with a minus sign. *)
Lemma negative_total_kept :
  is_json minus_total = true
  /\ normalize now0 minus_total
     = Ok (obj [("storeName", VStr unknown_store); ("date", VStr (formatNow now0));
                ("total", str "-2,580"); ("categoryId", str "other");
                ("items", VArr [obj [("name", VStr generic_item);
                                     ("price", str "-2,580");
                                     ("categoryId", str "other")]])]%string)
  /\ amount (str "-2,580") = Ok (Finite true 2580).
Proof. repeat split; vm_compute; reflexivity. Qed.

Lemma amounts_keep_their_sign_witness :
  (exists raw,
      raw_amount (prop minus_total (lit "total")) = Ok raw
      /\ renders_text raw (str "-2,580")
      /\ exists o, items minus_result = [o] /\ renders_text raw (prop o (lit "price")))
  /\ Forall2 (fun item o =>
                exists raw',
                  raw_amount (prop item (lit "price")) = Ok raw'
                  /\ renders_text raw' (prop o (lit "price")))
             (kept_items refund_receipt) (items refund_result).
Proof.
  destruct (amounts_keep_their_sign now0 minus_total minus_result)
    as (raw & Hraw & Htotal & Hnone & _); [vm_compute; reflexivity|].
  destruct (amounts_keep_their_sign now0 refund_receipt refund_result)
    as (_ & _ & _ & _ & Hkept); [vm_compute; reflexivity|].
  split.
  - exists raw. split; [exact Hraw | split; [exact Htotal|]].
    apply Hnone. reflexivity.
  - apply Hkept. discriminate.
Defined.

(** ** Parsing of amounts *)

Section ParsingClaims.
Context {num : Type} {NUM : JsNumber num}.
Implicit Types (data item out : value num) (now : clock).

Lemma amount_text (s : jstring) :
  amount (@VStr num s) = Ok (number_or_zero (strip_separators s)).
Proof. now destruct s. Qed.

(** C4: the parsed total of a text is the base-10 integer read from the
    text without its ASCII and full-width commas, and zero when nothing
    can be read; the decimal numeral of n, with commas of either kind put
    anywhere, parses to the double of n; the total of the result is the
    rendering of that number.  "2,580" and "2，580" parse to 2580, "abc"
    and a missing total to 0. *)
Theorem total_parsing :
  (forall s : jstring,
      amount (@VStr num s) = Ok (number_or_zero (strip_separators s))
      /\ (forall c, In c (strip_separators s)
                    <-> In c s /\ c <> ascii_comma /\ c <> fullwidth_comma))
  /\ (forall raw, parseInt10 raw = NaN -> number_or_zero raw = Finite false 0)
  /\ (forall raw, parseInt10 raw <> NaN -> number_or_zero raw = parseInt10 raw)
  /\ (forall (s : jstring) (n : N),
         strip_separators s = decimal n ->
         amount (@VStr num s) = Ok (to_number false n))
  /\ (forall now data out (s : jstring),
         normalize now data = Ok out -> prop data (lit "total") = VStr s ->
         prop out (lit "total")
         = VStr (toLocaleString (number_or_zero (strip_separators s))))
  /\ amount (@VStr num (lit "2,580")) = Ok (Finite false 2580)
  /\ amount (@VStr num [50; fullwidth_comma; 53; 56; 48]) = Ok (Finite false 2580)
  /\ amount (@VStr num (lit "abc")) = Ok (Finite false 0)
  /\ amount (@VUndef num) = Ok (Finite false 0).
Proof.
  split; [|split; [|split; [|split; [|split; [|repeat split]]]]].
  - intros s. split; [apply amount_text | intros c; apply strip_no_separator].
  - intros raw H. unfold number_or_zero. now rewrite H.
  - intros raw H. unfold number_or_zero. now destruct (parseInt10 raw).
  - intros s n H. rewrite amount_text, H. f_equal.
    destruct (decimal_spec n) as (Hv & Hd & Hne).
    pose proof (parseInt10_numeral NoSign (decimal n) [] Hd Hne eq_refl) as Hp.
    cbn [sign_text sign_negative app] in Hp. rewrite app_nil_r, Hv in Hp.
    unfold number_or_zero. rewrite Hp, to_number_not_NaN. reflexivity.
  - intros now data out s H Hs.
    apply normalize_total in H as (x & Hx & ->).
    rewrite Hs, amount_text in Hx. now injection Hx as <-.
Qed.

(** C8: when the comma-stripped text is white space, an optional sign and
    digits followed by something that is not a digit, the parsed amount is
    the double of the signed leading integer and the zero fallback is not
    taken; below 2^53 that double is the integer itself.  This is the
    amount of the total of the result and of the price of a mapped item. *)
Theorem prefix_parsing (s ws ds rest : jstring) (sg : sign) :
  forallb is_white_space ws = true ->
  forallb is_digit ds = true -> ds <> [] -> stops rest = true ->
  strip_separators s = ws ++ sign_text sg ++ ds ++ rest ->
  isNaN (parseInt10 (strip_separators s)) = false
  /\ amount (@VStr num s)
     = Ok (to_number (sign_negative sg) (digits_value ds))
  /\ (digits_value ds < 2 ^ 53 ->
      amount (@VStr num s) = Ok (Finite (sign_negative sg) (digits_value ds)))
  /\ (forall now data out,
         normalize now data = Ok out -> prop data (lit "total") = VStr s ->
         prop out (lit "total")
         = VStr (toLocaleString (to_number (sign_negative sg) (digits_value ds))))
  /\ (forall data item,
         prop item (lit "price") = VStr s ->
         mapItem data item
         = Ok (item_of data item (to_number (sign_negative sg) (digits_value ds)))).
Proof.
  intros Hws Hd Hne Hr Hs.
  assert (Hp : parseInt10 (strip_separators s)
               = to_number (sign_negative sg) (digits_value ds)).
  { rewrite Hs, (parseInt10_white _ _ Hws). now apply parseInt10_numeral. }
  assert (Ha : amount (@VStr num s)
               = Ok (to_number (sign_negative sg) (digits_value ds))).
  { rewrite amount_text. unfold number_or_zero.
    now rewrite Hp, to_number_not_NaN. }
  split; [|split; [|split; [|split]]].
  - rewrite Hp. apply to_number_not_NaN.
  - exact Ha.
  - intros Hsmall. rewrite Ha. unfold to_number.
    now rewrite (round_small _ Hsmall).
  - intros now data out H Htotal.
    apply normalize_total in H as (x & Hx & ->).
    rewrite Htotal, Ha in Hx. now injection Hx as <-.
  - intros data item Hprice. now rewrite mapItem_eq, Hprice, Ha.
Qed.

(** ** The item list *)

(** C5: on an input where no item passes the filter, a run that returns
    gives one item: the fixed placeholder name, the formatted total as its
    price and the resolved category of the receipt.  Runs return on every
    input that is not null and whose amounts convert to text, and the item
    list of a result is never empty. *)
Theorem fallback_item_when_none_kept now data :
  (nullish data = false -> renders data = true -> kept_items data = [] ->
   exists out,
     normalize now data = Ok out
     /\ valid_category (prop out (lit "categoryId"))
     /\ formatted (fun _ => true) (prop out (lit "total"))
     /\ items out
        = [VObj [(lit "name", VStr generic_item);
                 (lit "price", prop out (lit "total"));
                 (lit "categoryId", prop out (lit "categoryId"))]])
  /\ (forall out, normalize now data = Ok out -> items out <> [])
  /\ ((forall xs, prop data (lit "items") <> VArr xs) -> kept_items data = [])
  /\ (prop data (lit "items") = VArr [] -> kept_items data = [])
  /\ (forall xs, prop data (lit "items") = VArr xs ->
                 Forall (fun item => truthy (prop item (lit "name")) = false) xs ->
                 kept_items data = []).
Proof.
  repeat split.
  - intros Hn Hr Hk. rewrite renders_amounts_meet in Hr.
    destruct (normalize_returns (fun _ => true) now data Hn Hr)
      as (total & mapped & Ht & _ & Hm & Hrun).
    rewrite Hk in Hm. inversion Hm; subst.
    exists (receipt_of now data total []). repeat split.
    + exact Hrun.
    + apply resolve_category_valid.
    + exists total. repeat split. now apply amount_is_amount in Ht.
  - intros out H. apply normalize_inv in H as (_ & total & mapped & _ & _ & ->).
    rewrite raw_items_receipt. now destruct mapped.
  - intros H. unfold kept_items, items.
    destruct (prop data (lit "items")); try reflexivity. now elim (H xs).
  - intros H. unfold kept_items, items. now rewrite H.
  - intros xs H Hall. unfold kept_items, items. rewrite H. clear H.
    induction Hall as [|item l Hi _ IH]; [reflexivity|].
    cbn [filter]. unfold keep at 1. rewrite Hi, andb_false_r. exact IH.
Qed.
End ParsingClaims.

Lemma total_parsing_witness :
  amount (@VStr small_int [49; fullwidth_comma; 50; 51; 52; ascii_comma; 53; 54; 55])
  = Ok (to_number false 1234567)
  /\ number_or_zero (lit "abc") = Finite false 0
  /\ number_or_zero (lit "12abc") = parseInt10 (lit "12abc")
  /\ prop (obj [("storeName", VStr unknown_store); ("date", VStr (formatNow now0));
                ("total", str "2,580"); ("categoryId", str "other");
                ("items", VArr [obj [("name", VStr generic_item);
                                     ("price", str "2,580");
                                     ("categoryId", str "other")]])]%string)
          (lit "total")
     = VStr (toLocaleString (number_or_zero (strip_separators (lit "2,580")))).
Proof.
  destruct (@total_parsing small_int _) as (_ & Hnan & Hnum & Hdec & Hrun & _).
  split; [|split; [|split]].
  - apply Hdec. reflexivity.
  - apply Hnan. reflexivity.
  - apply Hnum. discriminate.
  - apply (Hrun now0 comma_total); vm_compute; reflexivity.
Defined.

(** 2,580円 *)
Lemma prefix_parsing_witness :
  isNaN (parseInt10 (strip_separators (lit "2,580" ++ [0x5186]))) = false
  /\ amount (@VStr small_int (lit "2,580" ++ [0x5186]))
     = Ok (to_number false 2580)
  /\ amount (@VStr small_int (lit "2,580" ++ [0x5186])) = Ok (Finite false 2580).
Proof.
  destruct (@prefix_parsing small_int _ (lit "2,580" ++ [0x5186]) [] (lit "2580")
              [0x5186] NoSign) as (Hnan & Hamount & Hsmall & _);
    try reflexivity; [discriminate|].
  split; [exact Hnan | split; [exact Hamount | apply Hsmall; reflexivity]].
Defined.

Lemma fallback_item_when_none_kept_witness :
  (exists out,
      normalize now0 nameless_item = Ok out
      /\ valid_category (prop out (lit "categoryId"))
      /\ formatted (fun _ => true) (prop out (lit "total"))
      /\ items out
         = [VObj [(lit "name", VStr generic_item);
                  (lit "price", prop out (lit "total"));
                  (lit "categoryId", prop out (lit "categoryId"))]])
  /\ items
       (obj [("storeName", VStr unknown_store); ("date", VStr (formatNow now0));
             ("total", str "2,580"); ("categoryId", str "other");
             ("items", VArr [obj [("name", VStr generic_item);
                                  ("price", str "2,580");
                                  ("categoryId", str "other")]])]%string) <> []
  /\ kept_items comma_total = []
  /\ kept_items (obj [("items", VArr [])]%string) = []
  /\ kept_items nameless_item = [].
Proof.
  destruct (fallback_item_when_none_kept now0 nameless_item) as (Hrun & _ & _ & _ & Hnames).
  destruct (fallback_item_when_none_kept now0 comma_total) as (_ & Hne & Hmissing & _).
  destruct (fallback_item_when_none_kept now0 (obj [("items", VArr [])]%string))
    as (_ & _ & _ & Hempty & _).
  split; [|split; [|split; [|split]]].
  - apply Hrun; reflexivity.
  - apply Hne. vm_compute. reflexivity.
  - apply Hmissing. discriminate.
  - apply Hempty. reflexivity.
  - apply (Hnames [obj [("name", str ""); ("price", str "100")]%string]);
      [reflexivity | repeat constructor].
Defined.

(** ** Idempotence, determinism and pass-through *)

Section RelationalClaims.
Context {num : Type} {NUM : JsNumber num}.
Implicit Types (data item out : value num) (now : clock).

(** C6 (amended): a receipt produced from an input none of whose amounts
    leaves the range of the doubles is a fixed point of the normalisation
    stage, whatever the clock: fed back, it comes out identical. *)
Theorem normalize_idempotent_on_finite now now' data out :
  normalize now data = Ok out -> finite_amounts data = true ->
  normalize now' out = Ok out.
Proof.
  intros H Hfin.
  assert (Hn : nullish data = false) by (now apply normalize_inv in H).
  destruct (normalize_normal finite now data Hn Hfin) as (out' & H' & Hnormal).
  assert (out' = out) by congruence. subst out'.
  now apply normalize_fixed.
Qed.

(** C7: the clock reaches the result through the date fallback only.  Two
    clocks with the same rendering give the same result; with a truthy raw
    date the clock does not matter at all; and in any case two runs agree
    on failure and on every field other than the date. *)
Theorem normalize_clock_only_in_date now1 now2 data :
  (formatNow now1 = formatNow now2 ->
   normalize now1 data = normalize now2 data)
  /\ (truthy (prop data (lit "date")) = true ->
      normalize now1 data = normalize now2 data)
  /\ (forall out1, normalize now1 data = Ok out1 ->
        exists out2, normalize now2 data = Ok out2
          /\ forall k, k <> lit "date" -> prop out1 k = prop out2 k)
  /\ (forall e, normalize now1 data = Throw e -> normalize now2 data = Throw e).
Proof.
  destruct (nullish data) eqn:Hn.
  - rewrite !(normalize_nullish _ _ Hn). repeat split; try discriminate; auto.
  - rewrite !(normalize_eq _ _ Hn).
    destruct (amount (prop data (lit "total"))) as [total|e]; cbn [bind];
      [|repeat split; try discriminate; auto].
    destruct (mapM (mapItem data) (kept_items data)) as [mapped|e]; cbn [bind];
      [|repeat split; try discriminate; auto].
    repeat split; try discriminate.
    + intros H. unfold receipt_of. now rewrite H.
    + intros H. unfold receipt_of. now rewrite !(or_else_left _ _ H).
    + intros out1 H. injection H as <-. eexists. split; [reflexivity|].
      intros k Hk. unfold receipt_of, prop. cbn [assoc].
      destruct (jstring_eqb k (lit "storeName")); [reflexivity|].
      destruct (jstring_eqb k (lit "date")) eqn:E; [|reflexivity].
      apply jstring_eqb_eq in E. contradiction.
Qed.

(** C10: the fallback of the store name and the filter of the items test
    truthiness only.  A truthy storeName of any type is the storeName of
    the result, an item passes the filter as soon as it and its name are
    truthy, and the names of the result are the names of the kept items,
    unchanged. *)
Theorem truthy_values_pass_through now data out :
  normalize now data = Ok out ->
  (truthy (prop data (lit "storeName")) = true ->
   prop out (lit "storeName") = prop data (lit "storeName"))
  /\ (forall item, In item (items data) -> truthy item = true ->
                   truthy (prop item (lit "name")) = true ->
                   In item (kept_items data))
  /\ (kept_items data <> [] ->
      map (fun o => prop o (lit "name")) (items out)
      = map (fun item => prop item (lit "name")) (kept_items data)).
Proof.
  intros H. apply normalize_inv in H as (_ & total & mapped & _ & Hm & ->).
  repeat split.
  - intros Hs. unfold receipt_of.
    change (prop (VObj _) (lit "storeName"))
      with (or_else (prop data (lit "storeName")) (VStr unknown_store)).
    now apply or_else_left.
  - intros item Hin Hi Hname. apply filter_In. split; [exact Hin|].
    unfold keep. now rewrite Hi, Hname.
  - intros Hne. rewrite raw_items_receipt.
    destruct Hm as [|item m l ms (p & _ & ->) Hrest]; [congruence|].
    cbn [map]. f_equal.
    induction Hrest as [|item' m' l' ms' (p' & _ & ->) _ IH]; [reflexivity|].
    cbn [map]. now rewrite IH.
Qed.

(** ** The guards of the handler *)

Variable JSON_parse : jstring -> option (value num).
Variable engine_message : type_error -> jstring.

(** C9 (amended): a request whose method is not POST is answered 405 with
    the error "Method not allowed", the body unread and nothing fetched.
    A POST on a server whose API key is set, with an imageSrc that is
    missing, not a string or empty, is answered 400 with an error and
    nothing is fetched.  The vision API is called only for a POST with the
    key set and a non-empty string as imageSrc. *)
Theorem handler_guards apiKey now net (req : request) :
  (method req <> lit "POST" ->
   handler JSON_parse engine_message apiKey now net req
   = ([], {| status := 405;
             payload := error_body (lit "Method not allowed") |}))
  /\ (method req = lit "POST" -> key_set apiKey = true ->
      usable_image (imageSrc req) = false ->
      handler JSON_parse engine_message apiKey now net req
      = ([ReadBody], {| status := 400;
                        payload := error_body (lit "imageSrc is required.") |}))
  /\ (forall url image,
        In (Fetch url image)
           (fst (handler JSON_parse engine_message apiKey now net req)) ->
        method req = lit "POST" /\ key_set apiKey = true
        /\ imageSrc req = VStr image /\ image <> []).
Proof.
  unfold handler. fold (imageSrc req).
  destruct (jstring_eqb (method req) (lit "POST")) eqn:Hm; cbn [negb].
  - apply jstring_eqb_eq in Hm. split; [congruence|].
    destruct apiKey as [[|c k]|]; cbn [key_set].
    1,3: split; [intros; discriminate | intros url image []].
    destruct (imageSrc req) as [| | | |[|a s]| |] eqn:Hi; cbn [usable_image];
      try (split; [reflexivity | intros url image [H | []]; discriminate]).
    split; [intros; discriminate|].
    intros url image Hin.
    assert (Himg : image = a :: s).
    { repeat match goal with
             | H : In _ (fst (match ?x with _ => _ end)) |- _ => destruct x
             | H : In _ (fst (if ?x then _ else _)) |- _ => destruct x
             end;
        cbn [fst app In] in Hin;
        repeat (destruct Hin as [Hin | Hin]; try discriminate; try contradiction);
        congruence. }
    subst image. repeat split; try assumption. discriminate.
  - split; [reflexivity|].
    assert (Hne : method req <> lit "POST").
    { intros E. apply jstring_eqb_eq in E. congruence. }
    split; [congruence | intros url image []].
Qed.
End RelationalClaims.

(** C6, as stated, fails when the total overflows: it is rendered as the
    infinity sign, which parses to NaN and comes back as zero. *)
Lemma idempotence_lost_on_overflow :
  is_json huge_total = true
  /\ exists out out',
       normalize now0 huge_total = Ok out
       /\ prop out (lit "total") = VStr [infinity_symbol]
       /\ normalize now0 out = Ok out'
       /\ prop out' (lit "total") = str "0".
Proof.
  split; [vm_compute; reflexivity|].
  do 2 eexists.
  split; [vm_compute; reflexivity|].
  split; [vm_compute; reflexivity|].
  split; vm_compute; reflexivity.
Qed.

Lemma normalize_idempotent_on_finite_witness :
  normalize eve
    (obj [("storeName", str "Cafe"); ("date", str "2024-01-05");
          ("total", str "2,580"); ("categoryId", str "food");
          ("items", VArr [obj [("name", str "Coffee"); ("price", str "500");
                               ("categoryId", str "food")]])]%string)
  = Ok (obj [("storeName", str "Cafe"); ("date", str "2024-01-05");
             ("total", str "2,580"); ("categoryId", str "food");
             ("items", VArr [obj [("name", str "Coffee"); ("price", str "500");
                                  ("categoryId", str "food")]])]%string)
  /\ normalize now0 large_total = Ok large_result
  /\ normalize eve large_result = Ok large_result.
Proof.
  split; [|split].
  - apply (normalize_idempotent_on_finite now0 eve cafe_receipt);
      vm_compute; reflexivity.
  - vm_compute; reflexivity.
  - apply (normalize_idempotent_on_finite now0 eve large_total);
      vm_compute; reflexivity.
Defined.

Lemma normalize_clock_only_in_date_witness :
  normalize now0 dated = normalize eve dated
  /\ normalize now0 comma_total = normalize now0 comma_total
  /\ (exists out2, normalize eve comma_total = Ok out2
        /\ forall k, k <> lit "date" ->
             prop (obj [("storeName", VStr unknown_store);
                        ("date", VStr (formatNow now0));
                        ("total", str "2,580"); ("categoryId", str "other");
                        ("items", VArr [obj [("name", VStr generic_item);
                                             ("price", str "2,580");
                                             ("categoryId", str "other")]])]%string) k
             = prop out2 k)
  /\ normalize eve (@VNull small_int)
     = Throw (TypeError (ReadOfNullish (lit "storeName"))).
Proof.
  destruct (normalize_clock_only_in_date now0 eve dated) as (_ & Hdate & _).
  destruct (normalize_clock_only_in_date now0 now0 comma_total) as (Hsame & _).
  destruct (normalize_clock_only_in_date now0 eve comma_total) as (_ & _ & Hfields & _).
  destruct (normalize_clock_only_in_date now0 eve (@VNull small_int)) as (_ & _ & _ & Hthrow).
  split; [|split; [|split]].
  - apply Hdate. reflexivity.
  - apply Hsame. reflexivity.
  - apply Hfields. vm_compute. reflexivity.
  - apply Hthrow. reflexivity.
Defined.

Lemma truthy_values_pass_through_witness :
  prop (obj [("storeName", VNum (Int false 7)); ("date", str "2024-01-05");
             ("total", str "0"); ("categoryId", str "other");
             ("items", VArr [obj [("name", obj []); ("price", str "0");
                                  ("categoryId", str "other")]])]%string)
       (lit "storeName")
  = VNum (Int false 7)
  /\ In (obj [("name", obj [])]%string) (kept_items odd_names)
  /\ map (fun o => prop o (lit "name"))
         [obj [("name", obj []); ("price", str "0"); ("categoryId", str "other")]%string]
     = [obj []].
Proof.
  destruct (truthy_values_pass_through now0 odd_names
              (obj [("storeName", VNum (Int false 7)); ("date", str "2024-01-05");
                    ("total", str "0"); ("categoryId", str "other");
                    ("items", VArr [obj [("name", obj []); ("price", str "0");
                                         ("categoryId", str "other")]])]%string))
    as (Hs & Hkeep & Hn); [vm_compute; reflexivity|].
  split; [|split].
  - apply Hs. reflexivity.
  - apply Hkeep; [now left | reflexivity | reflexivity].
  - apply Hn. discriminate.
Defined.

(** C9, as stated, fails when the API key is not set: a POST without an
    imageSrc is then answered 500, not 400. *)
Lemma missing_key_answers_first :
  handler no_parse no_message None now0 reply post_without_image
  = ([], {| status := 500;
            payload := error_body (lit "OPENAI_API_KEY is not set on the server.") |}).
Proof. reflexivity. Qed.

Lemma handler_guards_witness :
  handler no_parse no_message (Some (lit "sk-test")) now0 reply get_request
  = ([], {| status := 405; payload := error_body (lit "Method not allowed") |})
  /\ handler no_parse no_message (Some (lit "sk-test")) now0 reply post_with_number
     = ([ReadBody], {| status := 400; payload := error_body (lit "imageSrc is required.") |})
  /\ handler no_parse no_message (Some (lit "sk-test")) now0 reply post_without_image
     = ([ReadBody], {| status := 400; payload := error_body (lit "imageSrc is required.") |}).
Proof.
  split; [|split].
  - apply (handler_guards no_parse no_message (Some (lit "sk-test")) now0 reply
             get_request).
    discriminate.
  - apply (handler_guards no_parse no_message (Some (lit "sk-test")) now0 reply
             post_with_number); reflexivity.
  - apply (handler_guards no_parse no_message (Some (lit "sk-test")) now0 reply
             post_without_image); reflexivity.
Defined.

(** * Further properties of the code *)

(** ** The service worker *)

Lemma lookup_app {A : Type} (k : jstring) (l1 l2 : list (jstring * A)) :
  lookup k (l1 ++ l2)
  = match lookup k l1 with Some a => Some a | None => lookup k l2 end.
Proof.
  induction l1 as [|[k' a] l1 IH]; cbn [lookup app]; [reflexivity|].
  now destruct (jstring_eqb k k').
Qed.

Lemma lookup_In {A : Type} (k : jstring) (l : list (jstring * A)) (a : A) :
  lookup k l = Some a -> In (k, a) l.
Proof.
  induction l as [|[k' b] l IH]; cbn [lookup]; [discriminate|].
  destruct (jstring_eqb k k') eqn:E.
  - apply jstring_eqb_eq in E. intros H. injection H as <-. subst. now left.
  - intros H. right. now apply IH.
Qed.

Lemma lookup_None {A : Type} (k : jstring) (l : list (jstring * A)) :
  lookup k l = None <-> forall a, ~ In (k, a) l.
Proof.
  induction l as [|[k' b] l IH]; cbn [lookup]; split; auto.
  - destruct (jstring_eqb k k') eqn:E; [discriminate|].
    intros H a [Heq | Hin].
    + injection Heq as -> _.
      assert (jstring_eqb k k = true) by (now apply jstring_eqb_eq). congruence.
    + destruct IH as [IH _]. now apply (IH H a).
  - intros H. destruct (jstring_eqb k k') eqn:E.
    + apply jstring_eqb_eq in E. subst. elim (H b). now left.
    + apply IH. intros a Hin. apply (H a). now right.
Qed.

Lemma jstring_eqb_refl (a : jstring) : jstring_eqb a a = true.
Proof. now apply jstring_eqb_eq. Qed.

Lemma jstring_eqb_neq (a b : jstring) : jstring_eqb a b = false <-> a <> b.
Proof.
  split.
  - intros H E. subst. now rewrite jstring_eqb_refl in H.
  - intros H. destruct (jstring_eqb a b) eqn:E; [|reflexivity].
    apply jstring_eqb_eq in E. contradiction.
Qed.

Lemma jstring_eqb_sym (a b : jstring) : jstring_eqb a b = jstring_eqb b a.
Proof.
  destruct (jstring_eqb a b) eqn:E.
  - apply jstring_eqb_eq in E. subst. now rewrite jstring_eqb_refl.
  - symmetry. apply jstring_eqb_neq. apply jstring_eqb_neq in E. congruence.
Qed.

Lemma fold_caches_delete (names : list jstring) :
  forall s, fold_left caches_delete names s
            = filter (fun nc => negb (existsb (jstring_eqb (fst nc)) names)) s.
Proof.
  induction names as [|n names IH]; intros s; cbn [fold_left existsb].
  - induction s as [|nc s IHs]; [reflexivity|]. cbn [filter negb]. now f_equal.
  - rewrite IH. unfold caches_delete.
    induction s as [|nc s IHs]; [reflexivity|]. cbn [filter].
    destruct (jstring_eqb (fst nc) n); cbn [negb orb filter].
    + exact IHs.
    + destruct (negb (existsb (jstring_eqb (fst nc)) names)); [now f_equal | exact IHs].
Qed.

(** Activation keeps the caches of the current name and no other. *)
Lemma on_activate_filter (s : cache_storage) :
  on_activate s = filter (fun nc => jstring_eqb (fst nc) CACHE_NAME) s.
Proof.
  unfold on_activate. rewrite fold_caches_delete.
  apply filter_ext_in. intros [name c] Hin. cbn [fst].
  destruct (jstring_eqb name CACHE_NAME) eqn:E.
  - apply negb_true_iff. apply not_true_is_false. intros H.
    apply existsb_exists in H as (n & Hn & Heq).
    apply filter_In in Hn as [_ Hn]. apply jstring_eqb_eq in Heq. subst n.
    rewrite E in Hn. discriminate.
  - apply negb_false_iff. apply existsb_exists. exists name. split.
    + apply filter_In. split; [|now rewrite E].
      apply in_map_iff. exists (name, c). now split.
    + apply jstring_eqb_refl.
Qed.

Lemma lookup_filter_name {A : Type} (name : jstring) (s : list (jstring * A)) :
  lookup name (filter (fun nc => jstring_eqb (fst nc) name) s) = lookup name s.
Proof.
  induction s as [|[n c] s IH]; [reflexivity|]. cbn [filter fst lookup].
  rewrite (jstring_eqb_sym n name).
  destruct (jstring_eqb name n) eqn:E; [|exact IH].
  cbn [lookup]. now rewrite E.
Qed.

(** X1: activation deletes every cache whose name is not the current one
    and nothing else: the caches that remain are those of the storage that
    bear the current name, with their contents, and a second activation
    changes nothing. *)
Theorem activation_keeps_current_cache_only (s : cache_storage) :
  (forall name c, In (name, c) (on_activate s)
                  <-> In (name, c) s /\ name = CACHE_NAME)
  /\ lookup CACHE_NAME (on_activate s) = lookup CACHE_NAME s
  /\ on_activate (on_activate s) = on_activate s.
Proof.
  rewrite !on_activate_filter. split; [|split].
  - intros name c. rewrite filter_In. cbn [fst]. now rewrite jstring_eqb_eq.
  - apply lookup_filter_name.
  - induction s as [|[n c] s IH]; [reflexivity|]. cbn [filter fst].
    destruct (jstring_eqb n CACHE_NAME) eqn:E; [|exact IH].
    cbn [filter fst]. rewrite E. now f_equal.
Qed.

Lemma cache_match_get (c : cache) (url : jstring) :
  cache_match c (get_of url) = lookup url c.
Proof. reflexivity. Qed.

Lemma caches_match_app (s1 s2 : cache_storage) (r : fetch_request) :
  caches_match (s1 ++ s2) r
  = match caches_match s1 r with Some p => Some p | None => caches_match s2 r end.
Proof.
  induction s1 as [|[n c] s1 IH]; cbn [caches_match app]; [reflexivity|].
  now destruct (cache_match c r).
Qed.

Lemma caches_match_open (s : cache_storage) (name : jstring) (r : fetch_request) :
  caches_match (caches_open s name) r = caches_match s r.
Proof.
  unfold caches_open. destruct (lookup name s); [reflexivity|].
  rewrite caches_match_app. cbn [caches_match]. unfold cache_match.
  destruct (jstring_eqb (fetch_method r) (lit "GET")); now destruct (caches_match s r).
Qed.

(** A match comes from a cache of the storage and needs a GET request. *)
Lemma caches_match_Some (s : cache_storage) (r : fetch_request) (p : page) :
  caches_match s r = Some p ->
  fetch_method r = lit "GET"
  /\ exists name c, In (name, c) s /\ lookup (fetch_url r) c = Some p.
Proof.
  induction s as [|[n c] s IH]; cbn [caches_match]; [discriminate|].
  destruct (cache_match c r) as [q|] eqn:E.
  - intros H. injection H as ->. unfold cache_match in E.
    destruct (jstring_eqb (fetch_method r) (lit "GET")) eqn:Hm; [|discriminate].
    apply jstring_eqb_eq in Hm. split; [exact Hm|]. exists n, c. split; [now left | exact E].
  - intros H. destruct (IH H) as (Hm & n' & c' & Hin & Hl).
    split; [exact Hm|]. exists n', c'. split; [now right | exact Hl].
Qed.

Lemma caches_match_None (s : cache_storage) (r : fetch_request) :
  caches_match s r = None <->
  fetch_method r <> lit "GET"
  \/ forall name c, In (name, c) s -> lookup (fetch_url r) c = None.
Proof.
  split.
  - intros H. destruct (jstring_eqb (fetch_method r) (lit "GET")) eqn:Hm.
    + right. induction s as [|[n c] s IH]; [intros ? ? []|].
      cbn [caches_match] in H. unfold cache_match in H. rewrite Hm in H.
      destruct (lookup (fetch_url r) c) eqn:E; [discriminate|].
      intros name c' [Heq | Hin]; [now injection Heq as <- <- | now apply (IH H name)].
    + left. now apply jstring_eqb_neq.
  - intros [Hm | Hall].
    + apply jstring_eqb_neq in Hm.
      induction s as [|[n c] s IH]; [reflexivity|].
      cbn [caches_match]. unfold cache_match. now rewrite Hm.
    + induction s as [|[n c] s IH]; [reflexivity|].
      cbn [caches_match]. unfold cache_match.
      destruct (jstring_eqb (fetch_method r) (lit "GET")).
      * rewrite (Hall n c) by now left. apply IH. intros name c' Hin.
        apply (Hall name). now right.
      * apply IH. intros name c' Hin. apply (Hall name). now right.
Qed.

Section ServiceWorkerFacts.
Variable resolve : jstring -> jstring.

(** X2: the worker answers from the caches first.  A GET request whose URL
    is stored in some cache gets a stored response and nothing is sent to
    the network; a request that is not a GET, or whose URL no cache holds,
    is sent to the network once and gets what the network gives. *)
Theorem fetch_is_cache_first (net : network) (s : cache_storage) (r : fetch_request) :
  (fetch_method r <> lit "GET" -> on_fetch net s r = (net r, [r]))
  /\ ((forall name c, In (name, c) s -> lookup (fetch_url r) c = None) ->
      on_fetch net s r = (net r, [r]))
  /\ (forall name c p,
        fetch_method r = lit "GET" -> In (name, c) s ->
        lookup (fetch_url r) c = Some p ->
        exists name' c' q,
          In (name', c') s /\ lookup (fetch_url r) c' = Some q
          /\ on_fetch net s r = (Some q, [])).
Proof.
  unfold on_fetch. split; [|split].
  - intros Hm. assert (H : caches_match s r = None) by (apply caches_match_None; now left).
    now rewrite H.
  - intros Hall. assert (H : caches_match s r = None) by (apply caches_match_None; now right).
    now rewrite H.
  - intros name c p Hm Hin Hl. destruct (caches_match s r) as [q|] eqn:E.
    + apply caches_match_Some in E as (_ & n' & c' & Hin' & Hl'). exists n', c', q. auto.
    + apply caches_match_None in E as [E | E]; [contradiction|].
      rewrite (E name c Hin) in Hl. discriminate.
Qed.

(** *** Installation *)

Lemma fetch_all_Some (net : network) (urls : list jstring) :
  forall entries, fetch_all net urls = Some entries ->
    map fst entries = urls
    /\ forall u p, In (u, p) entries ->
                   net (get_of u) = Some p /\ page_ok p = true.
Proof.
  induction urls as [|u urls IH]; cbn [fetch_all]; intros entries H.
  - injection H as <-. split; [reflexivity | intros ? ? []].
  - destruct (net (get_of u)) as [p|] eqn:Hu; [|discriminate].
    destruct (fetch_all net urls) as [l|]; [|discriminate].
    destruct (page_ok p) eqn:Hok; [|discriminate]. injection H as <-.
    destruct (IH l eq_refl) as [Hmap Hall]. split; [cbn [map fst]; now f_equal|].
    intros u' p' [Heq | Hin]; [injection Heq as <- <-; auto | now apply Hall].
Qed.

Lemma fetch_all_complete (net : network) (urls : list jstring) :
  (forall u, In u urls -> exists p, net (get_of u) = Some p /\ page_ok p = true) ->
  exists entries, fetch_all net urls = Some entries.
Proof.
  induction urls as [|u urls IH]; intros H; cbn [fetch_all]; [eauto|].
  destruct (H u) as (p & -> & Hok); [now left|].
  destruct IH as (l & ->); [intros u' Hin; apply H; now right|].
  rewrite Hok. eauto.
Qed.

Lemma distinct_NoDup (l : list jstring) : distinct l = true -> NoDup l.
Proof.
  induction l as [|x l IH]; cbn [distinct]; intros H; constructor.
  - apply andb_true_iff in H as [H _]. apply negb_true_iff in H. intros Hin.
    assert (existsb (jstring_eqb x) l = true); [|congruence].
    apply existsb_exists. exists x. split; [exact Hin | apply jstring_eqb_refl].
  - apply andb_true_iff in H as [_ H]. now apply IH.
Qed.

Lemma lookup_cache_put (c : cache) (k url : jstring) (p : page) :
  lookup k (cache_put c url p)
  = if jstring_eqb k url then Some p else lookup k c.
Proof.
  unfold cache_put. rewrite lookup_app. cbn [lookup].
  induction c as [|[k' q] c IH]; cbn [filter fst lookup].
  - reflexivity.
  - destruct (jstring_eqb k' url) eqn:E; cbn [negb].
    + rewrite IH. apply jstring_eqb_eq in E. subst k'.
      now destruct (jstring_eqb k url).
    + cbn [lookup]. destruct (jstring_eqb k k') eqn:E'; [|exact IH].
      apply jstring_eqb_eq in E'. subst k'. now rewrite E.
Qed.

Lemma lookup_puts_other (entries : list (jstring * page)) (k : jstring) :
  ~ In k (map fst entries) ->
  forall c, lookup k (fold_left (fun c kv => cache_put c (fst kv) (snd kv)) entries c)
            = lookup k c.
Proof.
  induction entries as [|[u p] entries IH]; intros Hk c; cbn [fold_left fst snd];
    [reflexivity|].
  rewrite IH by (intros Hin; apply Hk; now right).
  rewrite lookup_cache_put.
  destruct (jstring_eqb k u) eqn:E; [|reflexivity].
  apply jstring_eqb_eq in E. subst. elim Hk. now left.
Qed.

Lemma lookup_puts (entries : list (jstring * page)) (k : jstring) (p : page) :
  NoDup (map fst entries) -> In (k, p) entries ->
  forall c, lookup k (fold_left (fun c kv => cache_put c (fst kv) (snd kv)) entries c)
            = Some p.
Proof.
  induction entries as [|[u q] entries IH]; intros Hnd Hin c; [contradiction|].
  cbn [map fst] in Hnd. inversion Hnd as [|? ? Hu Hrest]; subst.
  cbn [fold_left fst snd]. destruct Hin as [Heq | Hin].
  - injection Heq as -> ->. rewrite (lookup_puts_other _ _ Hu).
    rewrite lookup_cache_put. now rewrite jstring_eqb_refl.
  - now apply IH.
Qed.

Lemma lookup_with_cache (name : jstring) (f : cache -> cache) (s : cache_storage) :
  lookup name (with_cache name f s)
  = match lookup name s with Some c => Some (f c) | None => None end.
Proof.
  induction s as [|[n c] s IH]; [reflexivity|]. cbn [with_cache lookup].
  destruct (jstring_eqb name n) eqn:E; cbn [lookup]; now rewrite E.
Qed.

Lemma lookup_caches_open (s : cache_storage) (name : jstring) :
  exists c, lookup name (caches_open s name) = Some c.
Proof.
  unfold caches_open. destruct (lookup name s) as [c|] eqn:E; [eauto|].
  rewrite lookup_app, E. cbn [lookup]. rewrite jstring_eqb_refl. eauto.
Qed.

(** The two outcomes of the install listener. *)
Lemma on_install_cases (net : network) (s : cache_storage) :
  (exists entries,
      fetch_all net (map resolve urlsToCache) = Some entries
      /\ distinct (map resolve urlsToCache) = true
      /\ on_install resolve net s
         = (with_cache CACHE_NAME
              (fun c => fold_left (fun c kv => cache_put c (fst kv) (snd kv)) entries c)
              (caches_open s CACHE_NAME), true))
  \/ ((fetch_all net (map resolve urlsToCache) = None
       \/ distinct (map resolve urlsToCache) = false)
      /\ on_install resolve net s = (caches_open s CACHE_NAME, false)).
Proof.
  unfold on_install, addAll.
  destruct (fetch_all net (map resolve urlsToCache)) as [entries|]; [|right; auto].
  destruct (distinct (map resolve urlsToCache)); [left; eauto | right; auto].
Qed.

(** What a cache holds after the responses of [addAll] were put in it. *)
Lemma stored_entries (net : network) (urls : list jstring)
    (entries : list (jstring * page)) (c0 : cache) (u : jstring) :
  fetch_all net (map resolve urls) = Some entries ->
  distinct (map resolve urls) = true -> In u urls ->
  exists p,
    net (get_of (resolve u)) = Some p /\ page_ok p = true
    /\ lookup (resolve u)
         (fold_left (fun c kv => cache_put c (fst kv) (snd kv)) entries c0)
       = Some p.
Proof.
  intros Hf Hd Hu. destruct (fetch_all_Some _ _ _ Hf) as [Hmap Hall].
  assert (Hin : In (resolve u) (map fst entries)) by (rewrite Hmap; now apply in_map).
  apply in_map_iff in Hin as ([u' p] & Heq & Hin). cbn [fst] in Heq. subst u'.
  destruct (Hall _ _ Hin) as [Hnet Hok]. exists p. repeat split; try assumption.
  apply lookup_puts; [|exact Hin]. rewrite Hmap. now apply distinct_NoDup.
Qed.

(** X3: installation is all or nothing.  The worker gets installed exactly
    when every URL of the list is fetched with an ok response (and no two
    of them resolve to the same URL); the cache of the current name then
    holds, for each of them, the response that the network gave.  When it
    does not get installed, no response is stored: the caches answer every
    request as before. *)
Theorem install_all_or_nothing (net : network) (s : cache_storage) :
  (snd (on_install resolve net s) = true
   <-> (forall u, In u urlsToCache ->
          exists p, net (get_of (resolve u)) = Some p /\ page_ok p = true)
       /\ distinct (map resolve urlsToCache) = true)
  /\ (snd (on_install resolve net s) = true ->
      exists c, lookup CACHE_NAME (fst (on_install resolve net s)) = Some c
        /\ forall u, In u urlsToCache ->
             lookup (resolve u) c = net (get_of (resolve u)))
  /\ (snd (on_install resolve net s) = false ->
      fst (on_install resolve net s) = caches_open s CACHE_NAME
      /\ forall r, caches_match (fst (on_install resolve net s)) r
                   = caches_match s r).
Proof.
  destruct (on_install_cases net s) as [(entries & Hf & Hd & ->) | (Hfail & ->)];
    cbn [fst snd].
  - split; [|split]; [| |discriminate].
    + split; [intros _ | reflexivity]. split; [|exact Hd].
      intros u Hu. destruct (stored_entries net _ entries [] u Hf Hd Hu) as (p & Hp).
      exists p. tauto.
    + intros _. destruct (lookup_caches_open s CACHE_NAME) as (c0 & Hc0).
      eexists. split; [rewrite lookup_with_cache, Hc0; reflexivity|].
      intros u Hu. destruct (stored_entries net _ entries c0 u Hf Hd Hu)
        as (p & -> & _ & Hl). exact Hl.
  - split; [|split]; [|discriminate|].
    + split; [discriminate|]. intros [Hall Hd]. destruct Hfail as [Hf | Hf]; [|congruence].
      destruct (fetch_all_complete net (map resolve urlsToCache)) as (l & Hl); [|congruence].
      intros u Hu. apply in_map_iff in Hu as (u0 & <- & Hu0). now apply Hall.
    + intros _. split; [reflexivity | intros r; apply caches_match_open].
Qed.

Lemma caches_match_current (name : jstring) (s : cache_storage) (c : cache)
    (r : fetch_request) (p : page) :
  lookup name s = Some c -> cache_match c r = Some p ->
  caches_match (filter (fun nc => jstring_eqb (fst nc) name) s) r = Some p.
Proof.
  induction s as [|[n c'] s IH]; cbn [lookup filter fst]; [discriminate|].
  rewrite (jstring_eqb_sym n name). destruct (jstring_eqb name n).
  - intros H Hm. injection H as ->. cbn [caches_match]. now rewrite Hm.
  - exact IH.
Qed.

(** X4: once the worker is installed and activated, every URL of the list
    is answered from the cache with the response fetched at installation,
    whatever the caches held before and whatever the network does now; in
    particular without any network. *)
Theorem precached_pages_served_offline (net net' : network) (s : cache_storage)
    (u : jstring) :
  snd (on_install resolve net s) = true -> In u urlsToCache ->
  on_fetch net' (on_activate (fst (on_install resolve net s))) (get_of (resolve u))
  = (net (get_of (resolve u)), [])
  /\ exists p, net (get_of (resolve u)) = Some p /\ page_ok p = true.
Proof.
  intros Hdone Hu.
  destruct (on_install_cases net s) as [(entries & Hf & Hd & E) | (_ & E)];
    rewrite E in *; cbn [fst snd] in *; [|discriminate].
  destruct (lookup_caches_open s CACHE_NAME) as (c0 & Hc0).
  destruct (stored_entries net _ entries c0 u Hf Hd Hu) as (p & Hp & Hok & Hl).
  split; [|eauto]. unfold on_fetch. rewrite on_activate_filter.
  erewrite caches_match_current.
  - now rewrite Hp.
  - rewrite lookup_with_cache, Hc0. reflexivity.
  - rewrite cache_match_get. exact Hl.
Qed.

Lemma on_install_head (net : network) (name : jstring) (c : cache)
    (rest : cache_storage) :
  name <> CACHE_NAME ->
  exists tail, fst (on_install resolve net ((name, c) :: rest)) = (name, c) :: tail.
Proof.
  intros Hname. assert (E : jstring_eqb CACHE_NAME name = false)
    by (apply jstring_eqb_neq; congruence).
  unfold on_install, addAll.
  assert (Hopen : exists tail, caches_open ((name, c) :: rest) CACHE_NAME
                               = (name, c) :: tail).
  { unfold caches_open. destruct (lookup CACHE_NAME ((name, c) :: rest)); eauto.
    cbn [app]. eauto. }
  destruct Hopen as (tail & ->).
  destruct (fetch_all net (map resolve urlsToCache)); [|cbn [fst]; eauto].
  destruct (distinct (map resolve urlsToCache)); cbn [fst]; [|eauto].
  cbn [with_cache]. rewrite E. eauto.
Qed.

(** X5: until the worker is activated, the oldest cache of the storage,
    when it belongs to another version, keeps answering for the URLs it
    holds: after an installation, successful or not, a GET request for such
    a URL still gets the old response, and the network is not asked. *)
Theorem older_cache_answers_until_activation (net net' : network) (name : jstring)
    (c : cache) (rest : cache_storage) (url : jstring) (p : page) :
  name <> CACHE_NAME -> lookup url c = Some p ->
  on_fetch net' (fst (on_install resolve net ((name, c) :: rest))) (get_of url)
  = (Some p, []).
Proof.
  intros Hname Hl. destruct (on_install_head net name c rest Hname) as (tail & ->).
  unfold on_fetch. cbn [caches_match]. now rewrite cache_match_get, Hl.
Qed.
End ServiceWorkerFacts.

Lemma install_all_or_nothing_witness :
  snd (on_install at_origin online []) = true
  /\ (exists c, lookup CACHE_NAME (fst (on_install at_origin online [])) = Some c
        /\ forall u, In u urlsToCache ->
             lookup (at_origin u) c = online (get_of (at_origin u)))
  /\ fst (on_install at_origin offline old_storage)
     = caches_open old_storage CACHE_NAME.
Proof.
  destruct (install_all_or_nothing at_origin online []) as (Hiff & Hstored & _).
  destruct (install_all_or_nothing at_origin offline old_storage) as (_ & _ & Hfailed).
  assert (Hdone : snd (on_install at_origin online []) = true).
  { apply Hiff. split; [|vm_compute; reflexivity].
    intros u _. eexists. split; reflexivity. }
  split; [exact Hdone | split].
  - apply Hstored. exact Hdone.
  - apply Hfailed. vm_compute. reflexivity.
Defined.

Lemma fetch_is_cache_first_witness :
  on_fetch offline old_storage
    {| fetch_method := lit "POST"; fetch_url := at_origin (lit "/") |}
  = (None, [{| fetch_method := lit "POST"; fetch_url := at_origin (lit "/") |}])
  /\ on_fetch online [] (get_of (at_origin (lit "/")))
     = (online (get_of (at_origin (lit "/"))), [get_of (at_origin (lit "/"))])
  /\ exists name' c' q,
       In (name', c') old_storage
       /\ lookup (at_origin (lit "/")) c' = Some q
       /\ on_fetch offline old_storage (get_of (at_origin (lit "/"))) = (Some q, []).
Proof.
  destruct (fetch_is_cache_first offline old_storage
              {| fetch_method := lit "POST"; fetch_url := at_origin (lit "/") |})
    as (Hpost & _ & _).
  destruct (fetch_is_cache_first online [] (get_of (at_origin (lit "/"))))
    as (_ & Hmiss & _).
  destruct (fetch_is_cache_first offline old_storage (get_of (at_origin (lit "/"))))
    as (_ & _ & Hhit).
  split; [|split].
  - apply Hpost. intros H. vm_compute in H. discriminate H.
  - apply Hmiss. intros name c [].
  - apply (Hhit (lit "ryoshuyomi-v0")
             [(at_origin (lit "/"), {| page_ok := true; page_body := lit "old" |})]
             {| page_ok := true; page_body := lit "old" |});
      [reflexivity | now left | vm_compute; reflexivity].
Defined.

Lemma precached_pages_served_offline_witness :
  on_fetch offline (on_activate (fst (on_install at_origin online old_storage)))
    (get_of (at_origin (lit "/index.html")))
  = (online (get_of (at_origin (lit "/index.html"))), [])
  /\ exists p, online (get_of (at_origin (lit "/index.html"))) = Some p
               /\ page_ok p = true.
Proof.
  apply (precached_pages_served_offline at_origin online offline old_storage
           (lit "/index.html")).
  - vm_compute. reflexivity.
  - right. now left.
Defined.

Lemma older_cache_answers_until_activation_witness :
  on_fetch offline (fst (on_install at_origin online old_storage))
    (get_of (at_origin (lit "/")))
  = (Some {| page_ok := true; page_body := lit "old" |}, []).
Proof.
  apply (older_cache_answers_until_activation at_origin online offline
           (lit "ryoshuyomi-v0")
           [(at_origin (lit "/"), {| page_ok := true; page_body := lit "old" |})]
           [] (at_origin (lit "/")) {| page_ok := true; page_body := lit "old" |}).
  - intros H. vm_compute in H. discriminate H.
  - vm_compute. reflexivity.
Defined.

(** ** The paths of the handler *)

Section HandlerFacts.
Context {num : Type} {NUM : JsNumber num}.
Variable JSON_parse : jstring -> option (value num).
Variable engine_message : type_error -> jstring.
Implicit Types (req : @request num) (net : upstream) (now : clock).

Lemma api_error_prefix_nonempty (rest : jstring) : api_error_prefix ++ rest <> [].
Proof. discriminate. Qed.

Lemma errorMessage_nonempty (st : N) (text : jstring) :
  errorMessage JSON_parse st text <> [].
Proof.
  unfold errorMessage.
  repeat match goal with
         | |- context [match ?x with _ => _ end] => destruct x
         | |- context [if ?x then _ else _] => destruct x
         end;
    rewrite <- !app_assoc; apply api_error_prefix_nonempty.
Qed.

Lemma server_error_body (e : js_error) :
  exists message,
    server_error engine_message e
    = {| status := 500; payload := error_body message |}
    /\ message <> [].
Proof.
  unfold server_error, or_else, error_body.
  destruct e as [te | m].
  - destruct (engine_message te) as [|c s] eqn:E; cbn [truthy];
      eexists; (split; [reflexivity | discriminate]).
  - destruct m as [|c s]; cbn [truthy];
      eexists; (split; [reflexivity | discriminate]).
Qed.

Lemma bad_status_not_200 (st : N) :
  Bool.eqb false ((200 <=? st) && (st <=? 299)) = true -> st <> 200.
Proof. intros H ->. discriminate. Qed.

(** Case analysis on the run of the handler. *)
Ltac run_handler :=
  unfold handler;
  repeat match goal with
         | |- context [negb (jstring_eqb ?a ?b)] =>
             destruct (jstring_eqb a b) eqn:?; cbn [negb]
         | |- context [match ?x with _ => _ end] => destruct x eqn:?
         | |- context [if ?x then _ else _] => destruct x eqn:?
         end.

(** X6: the handler calls the vision API at most once and logs only after
    the call.  Its effects are, in order: nothing; the read of the body; the
    read and the call; or the read, the call and one log entry.  The call
    goes to the fixed URL with the imageSrc of the request.  The answer is
    200 exactly when the call was made and nothing was logged. *)
Theorem handler_effects apiKey now net req :
  (fst (handler JSON_parse engine_message apiKey now net req) = []
   \/ fst (handler JSON_parse engine_message apiKey now net req) = [ReadBody]
   \/ exists image,
        imageSrc req = VStr image /\ image <> []
        /\ (fst (handler JSON_parse engine_message apiKey now net req)
            = [ReadBody; Fetch OPENAI_API_URL image]
            \/ fst (handler JSON_parse engine_message apiKey now net req)
               = [ReadBody; Fetch OPENAI_API_URL image; Log]))
  /\ (well_formed_reply net = true ->
      (status (snd (handler JSON_parse engine_message apiKey now net req)) = 200
       <-> exists image,
             fst (handler JSON_parse engine_message apiKey now net req)
             = [ReadBody; Fetch OPENAI_API_URL image])).
Proof.
  unfold imageSrc. split.
  - run_handler; cbn [fst app]; auto;
      right; right; eexists; (split; [reflexivity | split; [discriminate | auto]]).
  - intros Hwf. run_handler; cbn [fst snd app status];
      try (destruct (server_error_body e) as (m & -> & _); cbn [status]);
      (split; [intros H | intros (image & H)]);
      try discriminate; eauto;
      subst; cbn [well_formed_reply] in Hwf;
      now apply bad_status_not_200 in Hwf.
Qed.

(** X7: every answer other than 200 is an object with the single key error
    that holds a non-empty text. *)
Theorem errors_carry_a_message apiKey now net req :
  well_formed_reply net = true ->
  status (snd (handler JSON_parse engine_message apiKey now net req)) <> 200 ->
  exists message,
    payload (snd (handler JSON_parse engine_message apiKey now net req)) = error_body message
    /\ message <> [].
Proof.
  intros Hwf. run_handler; cbn [snd status payload];
    try (destruct (server_error_body e) as (m & -> & Hm); cbn [payload]; eauto);
    intros Hst; try congruence;
    eexists; (split; [reflexivity|]); try discriminate.
  apply errorMessage_nonempty.
Qed.

(** The optional chain reads the content of the message of the first
    choice, and throws only on a reply that is null. *)
Lemma content_of_spec (json : value num) :
  content_of json
  = if nullish json then Throw (TypeError (ReadOfNullish (lit "choices")))
    else Ok (first_content json).
Proof.
  unfold content_of, get, first_content.
  destruct (nullish json); cbn [bind]; [reflexivity|]. f_equal.
  destruct (prop json (lit "choices")) as [| | | | [|c s] | [|x xs] | fields];
    cbn [nullish index0 prop]; try reflexivity.
  - destruct x; cbn [nullish prop]; try reflexivity.
    destruct (assoc (lit "message") fields) as [m|]; [|reflexivity].
    destruct m; reflexivity.
  - destruct (assoc (lit "0") fields) as [x|]; [|reflexivity].
    destruct x; cbn [nullish prop]; try reflexivity.
    destruct (assoc (lit "message") fields0) as [m|]; [|reflexivity].
    destruct m; reflexivity.
Qed.

(** What a run that answers 200 went through. *)
Lemma handler_200_inv apiKey now net req :
  well_formed_reply net = true ->
  status (snd (handler JSON_parse engine_message apiKey now net req)) = 200 ->
  exists st text json content data result,
    net = FetchReplies true st text
    /\ JSON_parse text = Some json
    /\ content_of json = Ok content
    /\ truthy content = true
    /\ parse_value JSON_parse content = Some data
    /\ normalize now data = Ok result
    /\ payload (snd (handler JSON_parse engine_message apiKey now net req)) = result.
Proof.
  intros Hwf. run_handler; cbn [snd status payload];
    try (destruct (server_error_body e) as (m & -> & _); cbn [status]);
    intros Hst; try discriminate;
    try (subst; cbn [well_formed_reply] in Hwf;
         now apply bad_status_not_200 in Hwf).
  do 6 eexists. repeat split; try eassumption.
  match goal with H : negb _ = false |- _ => now apply negb_false_iff in H end.
Qed.

(** X8: an answer 200 carries a receipt in normal shape: the handler gives
    the result of the normalisation stage on the JSON value parsed from
    [choices[0].message.content] of an ok reply, and that result has a truthy
    storeName and date, rendered amounts, a valid category and a non-empty
    list of items with truthy names. *)
Theorem success_carries_a_normal_receipt apiKey now net req :
  well_formed_reply net = true ->
  status (snd (handler JSON_parse engine_message apiKey now net req)) = 200 ->
  exists st text json data,
    net = FetchReplies true st text
    /\ JSON_parse text = Some json
    /\ truthy (first_content json) = true
    /\ parse_value JSON_parse (first_content json) = Some data
    /\ normalize now data
       = Ok (payload (snd (handler JSON_parse engine_message apiKey now net req)))
    /\ normal_receipt (fun _ => true)
         (payload (snd (handler JSON_parse engine_message apiKey now net req))).
Proof.
  intros Hwf Hst.
  destruct (handler_200_inv apiKey now net req Hwf Hst)
    as (st & text & json & content & data & result
        & Hnet & Hjson & Hcontent & Htruthy & Hdata & Hrun & ->).
  rewrite content_of_spec in Hcontent.
  destruct (nullish json); [discriminate|]. injection Hcontent as <-.
  exists st, text, json, data. repeat split; try assumption.
  assert (Hn : nullish data = false) by (now apply normalize_inv in Hrun).
  pose proof (normalize_renders _ _ _ Hrun) as Hr.
  rewrite renders_amounts_meet in Hr.
  destruct (normalize_normal (fun _ => true) now _ Hn Hr) as (out' & H' & Hnormal).
  congruence.
Qed.
(** X9: the API key is checked before the body is read: a POST on a server
    whose key is missing or empty is answered 500 at once, whatever the
    body holds, without a call and without a log entry. *)
Theorem key_checked_before_body apiKey now net req :
  method req = lit "POST" -> key_set apiKey = false ->
  handler JSON_parse engine_message apiKey now net req
  = ([], {| status := 500;
            payload := error_body (lit "OPENAI_API_KEY is not set on the server.") |}).
Proof.
  intros Hm Hk. unfold handler. rewrite Hm, jstring_eqb_refl. cbn [negb].
  destruct apiKey as [[|c k]|]; (reflexivity || discriminate).
Qed.

Lemma errorMessage_spec (st : N) (text : jstring) :
  exists detail,
    errorMessage JSON_parse st text
    = (api_error_prefix ++ decimal st ++ lit ")") ++ lit ": " ++ detail
    /\ (JSON_parse text = None -> detail = text)
    /\ (forall errorJson,
          JSON_parse text = Some errorJson ->
          truthy (prop (prop errorJson (lit "error")) (lit "message")) = false ->
          detail = text)
    /\ (forall errorJson m,
          JSON_parse text = Some errorJson ->
          prop (prop errorJson (lit "error")) (lit "message") = VStr m ->
          m <> [] -> detail = m).
Proof.
  unfold errorMessage, get.
  destruct (JSON_parse text) as [errorJson|].
  - destruct (nullish errorJson) eqn:Hn.
    + exists text. repeat split; try discriminate; auto.
      intros j m Hj Hm _. injection Hj as <-.
      destruct errorJson; discriminate.
    + assert (Hmsg : (if nullish (prop errorJson (lit "error")) then VUndef
                      else prop (prop errorJson (lit "error")) (lit "message"))
                     = prop (prop errorJson (lit "error")) (lit "message")).
      { destruct (prop errorJson (lit "error")); reflexivity. }
      rewrite Hmsg.
      destruct (truthy (prop (prop errorJson (lit "error")) (lit "message"))) eqn:Ht.
      * destruct (ToString (prop (prop errorJson (lit "error")) (lit "message")))
          as [m'|e] eqn:Hs.
        -- exists m'. repeat split; try discriminate.
           ++ intros j Hj Hf. injection Hj as <-. congruence.
           ++ intros j m Hj Hm _. injection Hj as <-. rewrite Hm in Hs.
              cbn [ToString] in Hs. now injection Hs as <-.
        -- exists text. repeat split; try discriminate; auto.
           intros j m Hj Hm _. injection Hj as <-. rewrite Hm in Hs. discriminate.
      * exists text. repeat split; try discriminate; auto.
        intros j m Hj Hm Hne. injection Hj as <-. rewrite Hm in Ht.
        destruct m; [contradiction | discriminate].
  - exists text. repeat split; auto; discriminate.
Qed.

(** X10: an error of the vision API is passed on.  When the reply is not
    ok, the answer has the status of the reply and an error text that names
    that status and ends with the message of the API's error object when
    the reply is JSON with a non-empty [error.message], and with the raw
    text of the reply when it is no JSON or has no such message. *)
Theorem upstream_error_is_forwarded apiKey now req (st : N) (text : jstring) :
  method req = lit "POST" -> key_set apiKey = true ->
  usable_image (imageSrc req) = true ->
  exists image detail,
    imageSrc req = VStr image
    /\ handler JSON_parse engine_message apiKey now (FetchReplies false st text) req
       = ([ReadBody; Fetch OPENAI_API_URL image; Log],
          {| status := st;
             payload := error_body ((api_error_prefix ++ decimal st ++ lit ")")
                                    ++ lit ": " ++ detail) |})
    /\ (JSON_parse text = None -> detail = text)
    /\ (forall errorJson,
          JSON_parse text = Some errorJson ->
          truthy (prop (prop errorJson (lit "error")) (lit "message")) = false ->
          detail = text)
    /\ (forall errorJson m,
          JSON_parse text = Some errorJson ->
          prop (prop errorJson (lit "error")) (lit "message") = VStr m ->
          m <> [] -> detail = m).
Proof.
  intros Hm Hk Hi. unfold handler. fold (imageSrc req).
  rewrite Hm, jstring_eqb_refl. cbn [negb].
  destruct apiKey as [[|c k]|]; try discriminate.
  destruct (imageSrc req) as [| | | |[|a s]| |]; try discriminate.
  destruct (errorMessage_spec st text) as (detail & -> & H1 & H2 & H3).
  exists (a :: s), detail. repeat split; assumption.
Qed.

(** X11: a reply that is ok but not of the expected form is answered 500
    and logged, with an error text that tells the stage that failed: the
    text of the reply is no JSON; the reply has no truthy
    [choices[0].message.content]; that content is no JSON; or the
    normalisation stage throws on the parsed content; or the reply is the
    JSON value null. *)
Theorem malformed_replies apiKey now req (st : N) (text : jstring) :
  method req = lit "POST" -> key_set apiKey = true ->
  usable_image (imageSrc req) = true ->
  exists image,
    imageSrc req = VStr image
    /\ (JSON_parse text = None ->
        handler JSON_parse engine_message apiKey now (FetchReplies true st text) req
        = ([ReadBody; Fetch OPENAI_API_URL image; Log],
           {| status := 500;
              payload := error_body (lit "Failed to parse OpenAI JSON response.") |}))
    /\ (forall json,
          JSON_parse text = Some json -> nullish json = false ->
          truthy (first_content json) = false ->
          handler JSON_parse engine_message apiKey now (FetchReplies true st text) req
          = ([ReadBody; Fetch OPENAI_API_URL image; Log],
             {| status := 500;
                payload := error_body (lit "Unexpected OpenAI response format.") |}))
    /\ (forall json,
          JSON_parse text = Some json ->
          truthy (first_content json) = true ->
          parse_value JSON_parse (first_content json) = None ->
          handler JSON_parse engine_message apiKey now (FetchReplies true st text) req
          = ([ReadBody; Fetch OPENAI_API_URL image; Log],
             {| status := 500;
                payload := error_body (lit "Failed to parse OpenAI content as JSON.") |}))
    /\ (forall json data e,
          JSON_parse text = Some json ->
          truthy (first_content json) = true ->
          parse_value JSON_parse (first_content json) = Some data ->
          normalize now data = Throw e ->
          handler JSON_parse engine_message apiKey now (FetchReplies true st text) req
          = ([ReadBody; Fetch OPENAI_API_URL image; Log],
             server_error engine_message e))
    /\ (forall json,
          JSON_parse text = Some json -> nullish json = true ->
          handler JSON_parse engine_message apiKey now (FetchReplies true st text) req
          = ([ReadBody; Fetch OPENAI_API_URL image; Log],
             server_error engine_message (TypeError (ReadOfNullish (lit "choices"))))).
Proof.
  intros Hm Hk Hi. unfold handler. fold (imageSrc req).
  rewrite Hm, jstring_eqb_refl. cbn [negb].
  destruct apiKey as [[|c k]|]; try discriminate.
  destruct (imageSrc req) as [| | | |[|a s]| |]; try discriminate.
  assert (Hnn : forall json, truthy (first_content json) = true -> nullish json = false)
    by (intros json; destruct json; (reflexivity || discriminate)).
  exists (a :: s). split; [reflexivity|]. split; [|split; [|split; [|split]]].
  - intros ->. reflexivity.
  - intros json -> Hn Hc. rewrite content_of_spec, Hn, Hc. reflexivity.
  - intros json -> Hc Hp. rewrite content_of_spec, (Hnn _ Hc), Hc, Hp. reflexivity.
  - intros json data e -> Hc Hp Hrun.
    rewrite content_of_spec, (Hnn _ Hc), Hc, Hp, Hrun. reflexivity.
  - intros json -> Hn. rewrite content_of_spec, Hn. reflexivity.
Qed.
End HandlerFacts.

Lemma handler_effects_witness :
  (exists image,
      fst (handler sample_parse no_message (Some (lit "sk-test")) now0
             (FetchReplies true 200 coffee_answer) usable_post)
      = [ReadBody; Fetch OPENAI_API_URL image])
  /\ status (snd (handler sample_parse no_message (Some (lit "sk-test")) now0
                    (FetchReplies true 200 coffee_answer) usable_post)) = 200.
Proof.
  destruct (handler_effects sample_parse no_message (Some (lit "sk-test")) now0
              (FetchReplies true 200 coffee_answer) usable_post) as (_ & Hiff).
  assert (Hst : status (snd (handler sample_parse no_message (Some (lit "sk-test"))
                               now0 (FetchReplies true 200 coffee_answer)
                               usable_post)) = 200)
    by (vm_compute; reflexivity).
  split; [|exact Hst]. apply Hiff; [reflexivity | exact Hst].
Defined.

Lemma errors_carry_a_message_witness :
  exists message,
    payload (snd (handler sample_parse no_message (Some (lit "sk-test")) now0
                    api_down usable_post))
    = error_body message
    /\ message <> [].
Proof.
  apply (errors_carry_a_message sample_parse no_message (Some (lit "sk-test")) now0
           api_down usable_post).
  - reflexivity.
  - intros H. vm_compute in H. discriminate H.
Defined.

Lemma success_carries_a_normal_receipt_witness :
  exists st text json data,
    FetchReplies true 200 coffee_answer = FetchReplies true st text
    /\ sample_parse text = Some json
    /\ truthy (first_content json) = true
    /\ parse_value sample_parse (first_content json) = Some data
    /\ normalize now0 data
       = Ok (payload (snd (handler sample_parse no_message (Some (lit "sk-test"))
                             now0 (FetchReplies true 200 coffee_answer) usable_post)))
    /\ normal_receipt (fun _ => true)
         (payload (snd (handler sample_parse no_message (Some (lit "sk-test"))
                          now0 (FetchReplies true 200 coffee_answer) usable_post))).
Proof.
  apply (success_carries_a_normal_receipt sample_parse no_message
           (Some (lit "sk-test")) now0 (FetchReplies true 200 coffee_answer)
           usable_post).
  - reflexivity.
  - vm_compute. reflexivity.
Defined.

Lemma key_checked_before_body_witness :
  handler sample_parse no_message None now0 reply usable_post
  = ([], {| status := 500;
            payload := error_body (lit "OPENAI_API_KEY is not set on the server.") |}).
Proof.
  apply (key_checked_before_body sample_parse no_message None now0 reply usable_post);
    reflexivity.
Defined.

Lemma upstream_error_is_forwarded_witness :
  (exists image detail,
      imageSrc usable_post = VStr image
      /\ handler sample_parse no_message (Some (lit "sk-test")) now0
           (FetchReplies false 503 (lit "busy")) usable_post
         = ([ReadBody; Fetch OPENAI_API_URL image; Log],
            {| status := 503;
               payload := error_body ((api_error_prefix ++ decimal 503 ++ lit ")")
                                      ++ lit ": " ++ detail) |})
      /\ detail = lit "busy")
  /\ (exists image detail,
        imageSrc usable_post = VStr image
        /\ handler sample_parse no_message (Some (lit "sk-test")) now0
             (FetchReplies false 429 quota_answer) usable_post
           = ([ReadBody; Fetch OPENAI_API_URL image; Log],
              {| status := 429;
                 payload := error_body ((api_error_prefix ++ decimal 429 ++ lit ")")
                                        ++ lit ": " ++ detail) |})
        /\ detail = lit "quota exceeded")
  /\ (exists image detail,
        imageSrc usable_post = VStr image
        /\ handler sample_parse no_message (Some (lit "sk-test")) now0
             (FetchReplies false 500 (lit "{}")) usable_post
           = ([ReadBody; Fetch OPENAI_API_URL image; Log],
              {| status := 500;
                 payload := error_body ((api_error_prefix ++ decimal 500 ++ lit ")")
                                        ++ lit ": " ++ detail) |})
        /\ detail = lit "{}").
Proof.
  destruct (upstream_error_is_forwarded sample_parse no_message (Some (lit "sk-test"))
              now0 usable_post 503 (lit "busy"))
    as (i1 & d1 & Hi1 & Hrun1 & Hraw & _); try reflexivity.
  destruct (upstream_error_is_forwarded sample_parse no_message (Some (lit "sk-test"))
              now0 usable_post 429 quota_answer)
    as (i2 & d2 & Hi2 & Hrun2 & _ & _ & Hmsg); try reflexivity.
  destruct (upstream_error_is_forwarded sample_parse no_message (Some (lit "sk-test"))
              now0 usable_post 500 (lit "{}"))
    as (i3 & d3 & Hi3 & Hrun3 & _ & Hnone & _); try reflexivity.
  split; [|split].
  - exists i1, d1. split; [exact Hi1 | split; [exact Hrun1|]]. apply Hraw. reflexivity.
  - exists i2, d2. split; [exact Hi2 | split; [exact Hrun2|]].
    apply (Hmsg (obj [("error", obj [("message", str "quota exceeded")]%string)]%string));
      [reflexivity | reflexivity | discriminate].
  - exists i3, d3. split; [exact Hi3 | split; [exact Hrun3|]].
    apply (Hnone (obj [])); reflexivity.
Defined.

Lemma malformed_replies_witness :
  exists image,
    imageSrc usable_post = VStr image
    /\ handler sample_parse no_message (Some (lit "sk-test")) now0
         (FetchReplies true 200 (lit "<html>")) usable_post
       = ([ReadBody; Fetch OPENAI_API_URL image; Log],
          {| status := 500;
             payload := error_body (lit "Failed to parse OpenAI JSON response.") |})
    /\ handler sample_parse no_message (Some (lit "sk-test")) now0
         (FetchReplies true 200 (lit "{}")) usable_post
       = ([ReadBody; Fetch OPENAI_API_URL image; Log],
          {| status := 500;
             payload := error_body (lit "Unexpected OpenAI response format.") |})
    /\ handler sample_parse no_message (Some (lit "sk-test")) now0
         (FetchReplies true 200 broken_answer) usable_post
       = ([ReadBody; Fetch OPENAI_API_URL image; Log],
          {| status := 500;
             payload := error_body (lit "Failed to parse OpenAI content as JSON.") |})
    /\ handler sample_parse no_message (Some (lit "sk-test")) now0
         (FetchReplies true 200 null_answer) usable_post
       = ([ReadBody; Fetch OPENAI_API_URL image; Log],
          server_error no_message (TypeError (ReadOfNullish (lit "storeName"))))
    /\ handler sample_parse no_message (Some (lit "sk-test")) now0
         (FetchReplies true 200 (lit "null")) usable_post
       = ([ReadBody; Fetch OPENAI_API_URL image; Log],
          server_error no_message (TypeError (ReadOfNullish (lit "choices")))).
Proof.
  exists (lit "data:image/png"). split; [reflexivity|].
  destruct (malformed_replies sample_parse no_message (Some (lit "sk-test")) now0
              usable_post 200 (lit "<html>"))
    as (i1 & E1 & Hjson & _); try reflexivity.
  destruct (malformed_replies sample_parse no_message (Some (lit "sk-test")) now0
              usable_post 200 (lit "{}"))
    as (i2 & E2 & _ & Hform & _); try reflexivity.
  destruct (malformed_replies sample_parse no_message (Some (lit "sk-test")) now0
              usable_post 200 broken_answer)
    as (i3 & E3 & _ & _ & Hcontent & _); try reflexivity.
  destruct (malformed_replies sample_parse no_message (Some (lit "sk-test")) now0
              usable_post 200 null_answer)
    as (i4 & E4 & _ & _ & _ & Hthrow & _); try reflexivity.
  destruct (malformed_replies sample_parse no_message (Some (lit "sk-test")) now0
              usable_post 200 (lit "null"))
    as (i5 & E5 & _ & _ & _ & _ & Hnull); try reflexivity.
  injection E1 as <-. injection E2 as <-. injection E3 as <-.
  injection E4 as <-. injection E5 as <-.
  split; [|split; [|split; [|split]]].
  - apply Hjson. reflexivity.
  - apply (Hform (obj [])); reflexivity.
  - apply (Hcontent (answer_with (lit "oops"))); reflexivity.
  - apply (Hthrow (answer_with (lit "null")) VNull); reflexivity.
  - apply (Hnull VNull); reflexivity.
Defined.

(** ** The digits of small and large doubles *)

Lemma round_of_large (c r : N) :
  2 ^ 53 <= c -> round_to_double c = Some r -> 2 ^ 53 <= r.
Proof.
  intros Hc. unfold round_to_double.
  assert (Hbig : (c <? 2 ^ 53) = false) by (now apply N.ltb_ge).
  rewrite Hbig. set (e := N.log2 c - 52). set (q := c / 2 ^ e). cbv zeta.
  match goal with
  | |- context [if ?b then q + 1 else q] => set (q' := if b then q + 1 else q)
  end.
  destruct (q' * 2 ^ e <? 2 ^ 1024); [|discriminate].
  intros H. injection H as <-.
  assert (Hpos : 0 < c) by (apply N.lt_le_trans with (2 ^ 53); [reflexivity | exact Hc]).
  assert (Hl : 53 <= N.log2 c) by (apply N.log2_le_pow2; assumption).
  destruct (N.log2_spec c Hpos) as [Hlo _].
  assert (He : N.log2 c = e + 52) by (unfold e; lia).
  assert (Hp : 2 ^ e <> 0) by (apply N.pow_nonzero; lia).
  assert (Hq : 2 ^ 52 <= q).
  { unfold q. apply N.div_le_lower_bound; [exact Hp|].
    rewrite N.mul_comm, <- N.pow_add_r, (N.add_comm 52), <- He. exact Hlo. }
  assert (Hq' : q <= q')
    by (unfold q'; match goal with |- context [if ?b then _ else _] => destruct b end; lia).
  apply N.le_trans with (2 ^ 52 * 2 ^ 1); [reflexivity|].
  apply N.mul_le_mono; [lia|]. apply N.pow_le_mono_r; lia.
Qed.

(** Below 2^53 only the integer itself reads back as it. *)
Lemma reads_as_small (n c : N) : n < 2 ^ 53 -> reads_as n c = (c =? n).
Proof.
  intros Hn. unfold reads_as. destruct (N.lt_ge_cases c (2 ^ 53)) as [Hc | Hc].
  - now rewrite (round_small _ Hc).
  - destruct (round_to_double c) as [r|] eqn:Hr.
    + apply (round_of_large _ _ Hc) in Hr.
      transitivity false; [apply N.eqb_neq | symmetry; apply N.eqb_neq]; lia.
    + symmetry. apply N.eqb_neq. lia.
Qed.

Lemma shortest_at_small (n : N) : n < 2 ^ 53 -> forall j, shortest_at j n = n.
Proof.
  intros Hn j. induction j as [|j IH]; cbn [shortest_at];
    rewrite !(reads_as_small _ _ Hn);
    match goal with
    | |- context [?lo + ?u =? n] =>
        destruct (N.eqb_spec lo n) as [Hlo | Hlo];
        destruct (N.eqb_spec (lo + u) n) as [Hhi | Hhi]
    end; try assumption; try reflexivity.
  - assert (Hu : 10 ^ N.of_nat 0 <> 0) by (apply N.pow_nonzero; lia). lia.
  - assert (Hu : 10 ^ N.of_nat (S j) <> 0) by (apply N.pow_nonzero; lia). lia.
Qed.

Lemma shortest_small (n : N) : n < 2 ^ 53 -> shortest n = n.
Proof. intros Hn. now apply shortest_at_small. Qed.

(** ** More on the normalisation stage *)

Section NormalizerMore.
Context {num : Type} {NUM : JsNumber num}.
Implicit Types (data item out : value num) (now : clock).

(** X12: the category of the result is always a member of the enumeration;
    it is the raw category when that is a member, and "other" in every
    other case (missing, not a text, or a text outside the enumeration). *)
Theorem receipt_category_resolution now data out :
  normalize now data = Ok out ->
  valid_category (prop out (lit "categoryId"))
  /\ (valid_category (prop data (lit "categoryId")) ->
      prop out (lit "categoryId") = prop data (lit "categoryId"))
  /\ (~ valid_category (prop data (lit "categoryId")) ->
      prop out (lit "categoryId") = VStr (lit "other")).
Proof.
  intros H. apply normalize_inv in H as (_ & total & mapped & _ & _ & ->).
  change (prop (receipt_of now data total mapped) (lit "categoryId"))
    with (resolve_category (prop data (lit "categoryId"))).
  split; [apply resolve_category_valid | split].
  - apply resolve_category_fixed.
  - intros Hno. unfold resolve_category.
    destruct (includes (prop data (lit "categoryId"))) eqn:E.
    + apply includes_valid in E. contradiction.
    + now rewrite andb_false_r.
Qed.

(** X13: when some item passes the filter, the result has one item for
    each kept item, in the order of the input.  Each has the name of its
    item, the rendering of the amount parsed from the price of that item
    alone, and as category the first truthy value among the category of the
    item, the raw category of the receipt and "other". *)
Theorem items_follow_the_kept_items now data out :
  normalize now data = Ok out -> kept_items data <> [] ->
  List.length (items out) = List.length (kept_items data)
  /\ Forall2
       (fun item o =>
          prop o (lit "name") = prop item (lit "name")
          /\ amount (prop item (lit "price")) = Ok (price_of item)
          /\ prop o (lit "price") = VStr (toLocaleString (price_of item))
          /\ (truthy (prop item (lit "categoryId")) = true ->
              prop o (lit "categoryId") = prop item (lit "categoryId"))
          /\ (truthy (prop item (lit "categoryId")) = false ->
              truthy (prop data (lit "categoryId")) = true ->
              prop o (lit "categoryId") = prop data (lit "categoryId"))
          /\ (truthy (prop item (lit "categoryId")) = false ->
              truthy (prop data (lit "categoryId")) = false ->
              prop o (lit "categoryId") = VStr (lit "other")))
       (kept_items data) (items out).
Proof.
  intros H Hne. apply normalize_inv in H as (_ & total & mapped & _ & Hm & ->).
  rewrite raw_items_receipt.
  assert (Hmapped : match mapped with _ :: _ => mapped | [] =>
                      [fallback_item total (resolve_category (prop data (lit "categoryId")))]
                    end = mapped).
  { destruct Hm; [congruence | reflexivity]. }
  rewrite Hmapped. clear Hmapped Hne. split.
  - symmetry. eapply Forall2_length. exact Hm.
  - eapply Forall2_impl; [|exact Hm].
    intros item o (p & Hp & ->). unfold price_of. rewrite Hp.
    change (prop (item_of data item p) (lit "name")) with (prop item (lit "name")).
    change (prop (item_of data item p) (lit "price")) with (@VStr num (toLocaleString p)).
    rewrite item_category. unfold or_else.
    repeat split; try reflexivity.
    + now intros ->.
    + now intros -> ->.
    + now intros -> ->.
Qed.

(** X14: a missing or falsy store name is replaced by the fixed
    placeholder and a missing or falsy date by the rendering of the clock,
    which is never empty; a truthy date is kept as it is. *)
Theorem defaults_of_store_and_date now data out :
  normalize now data = Ok out ->
  (truthy (prop data (lit "storeName")) = false ->
   prop out (lit "storeName") = VStr unknown_store)
  /\ (truthy (prop data (lit "date")) = false ->
      prop out (lit "date") = VStr (formatNow now))
  /\ (truthy (prop data (lit "date")) = true ->
      prop out (lit "date") = prop data (lit "date"))
  /\ formatNow now <> [].
Proof.
  intros H. apply normalize_inv in H as (_ & total & mapped & _ & _ & ->).
  change (prop (receipt_of now data total mapped) (lit "storeName"))
    with (or_else (prop data (lit "storeName")) (VStr unknown_store)).
  change (prop (receipt_of now data total mapped) (lit "date"))
    with (or_else (prop data (lit "date")) (VStr (formatNow now))).
  unfold or_else. repeat split.
  - now intros ->.
  - now intros ->.
  - now intros ->.
  - apply formatNow_nonempty.
Qed.

(** X15: parsing undoes rendering.  The ja-JP rendering of a finite amount,
    with its sign, its grouping commas and the shortest digits that read
    back as the double, parses back to that amount; so two different finite
    amounts have different renderings.  Every integer below 2^53, of either
    sign, is such an amount, and is rendered with its own digits. *)
Theorem rendering_parses_back :
  (forall x, is_amount x = true -> finite x = true ->
             amount (@VStr num (toLocaleString x)) = Ok x)
  /\ (forall x y, is_amount x = true -> finite x = true ->
                  is_amount y = true -> finite y = true ->
                  x <> y -> toLocaleString x <> toLocaleString y)
  /\ (forall neg n, n < 2 ^ 53 ->
                    is_amount (Finite neg n) = true
                    /\ toLocaleString (Finite neg n)
                       = (if neg then [minus_sign] else []) ++ group3 (decimal n)
                    /\ amount (@VStr num (toLocaleString (Finite neg n)))
                       = Ok (Finite neg n)).
Proof.
  split; [|split].
  - apply amount_formatted.
  - intros x y Hx Hfx Hy Hfy Hne E. apply Hne.
    pose proof (amount_formatted (num := num) x Hx Hfx) as H1.
    pose proof (amount_formatted (num := num) y Hy Hfy) as H2.
    rewrite E in H1. congruence.
  - intros neg n Hn.
    assert (Ha : is_amount (Finite neg n) = true).
    { cbn [is_amount]. rewrite (round_small _ Hn). apply N.eqb_refl. }
    split; [exact Ha | split; [|now apply amount_formatted]].
    cbn [toLocaleString]. now rewrite (shortest_small _ Hn).
Qed.

(** X16: an amount field that is missing, null, a boolean, an empty text,
    an empty array or an object without a [toString] key counts as zero;
    an object with a [toString] key of its own makes the stage throw a
    TypeError, since a value parsed from JSON cannot be called. *)
Theorem amounts_of_odd_fields :
  amount (@VUndef num) = Ok (Finite false 0)
  /\ amount (@VNull num) = Ok (Finite false 0)
  /\ (forall b, amount (@VBool num b) = Ok (Finite false 0))
  /\ amount (@VStr num []) = Ok (Finite false 0)
  /\ amount (@VArr num []) = Ok (Finite false 0)
  /\ (forall fields : list (jstring * value num),
        has_own (lit "toString") fields = false ->
        amount (VObj fields) = Ok (Finite false 0))
  /\ (forall fields : list (jstring * value num),
        has_own (lit "toString") fields = true ->
        amount (VObj fields) = Throw (TypeError (NotCallable (lit "toString")))).
Proof.
  repeat split; try reflexivity.
  - intros []; reflexivity.
  - intros fields H. unfold amount, raw_amount, or_else. cbn [truthy toString].
    now rewrite H.
  - intros fields H. unfold amount, raw_amount, or_else. cbn [truthy toString].
    now rewrite H.
Qed.
Lemma assoc_json (k : jstring) (fields : list (jstring * value num)) (v : value num) :
  forallb (fun kv => is_json (snd kv)) fields = true ->
  assoc k fields = Some v -> is_json v = true.
Proof.
  induction fields as [|[k' x] fields IH]; cbn [forallb assoc snd]; [discriminate|].
  intros H. apply andb_true_iff in H as [Hx Hrest].
  destruct (jstring_eqb k k'); [intros E; now injection E as <- | now apply IH].
Qed.

Lemma truthy_prop_json (v : value num) (k : jstring) :
  is_json v = true -> truthy (prop v k) = true -> is_json (prop v k) = true.
Proof.
  destruct v; cbn [prop truthy]; try discriminate.
  cbn [is_json]. intros Hj. destruct (assoc k fields) as [x|] eqn:E; [|discriminate].
  intros _. now apply (assoc_json k fields).
Qed.

Lemma or_else_json (a b : value num) :
  (truthy a = true -> is_json a = true) -> is_json b = true ->
  is_json (or_else a b) = true.
Proof. unfold or_else. destruct (truthy a); auto. Qed.

Lemma items_json data item :
  is_json data = true -> In item (items data) -> is_json item = true.
Proof.
  unfold items. destruct data; cbn [prop]; try contradiction.
  cbn [is_json]. intros Hj. destruct (assoc (lit "items") fields) as [x|] eqn:E;
    [|contradiction].
  apply (assoc_json _ _ _ Hj) in E. destruct x; try contradiction.
  cbn [is_json] in E. rewrite forallb_forall in E. apply E.
Qed.

Lemma valid_category_json (v : value num) : valid_category v -> is_json v = true.
Proof. now intros (c & -> & _). Qed.

(** X17: the result of a JSON input is JSON: no field of the result, at
    any depth, is undefined, so that its serialisation drops no key. *)
Theorem result_is_json now data out :
  is_json data = true -> normalize now data = Ok out -> is_json out = true.
Proof.
  intros Hj H. apply normalize_inv in H as (_ & total & mapped & _ & Hm & ->).
  pose proof (valid_category_json _ (resolve_category_valid (prop data (lit "categoryId"))))
    as Hcat.
  assert (Hitems : forallb is_json mapped = true).
  { apply forallb_forall. apply Forall_forall.
    eapply Forall2_right; [exact Hm|].
    intros item o Hin (p & _ & ->). cbv beta.
    assert (Hitem : is_json item = true).
    { apply (items_json data); [exact Hj|]. now apply filter_In in Hin as [Hin _]. }
    apply kept_truthy_name in Hin as [_ Hname].
    unfold item_of. cbn [is_json forallb snd].
    rewrite (truthy_prop_json _ _ Hitem Hname). cbn [andb].
    rewrite or_else_json; [reflexivity | now apply truthy_prop_json |].
    apply or_else_json; [now apply truthy_prop_json | reflexivity]. }
  unfold receipt_of. cbn [is_json forallb snd].
  rewrite !or_else_json; try reflexivity; try (now apply truthy_prop_json).
  rewrite Hcat. cbn [andb]. rewrite andb_true_r.
  destruct mapped as [|m ms]; [|exact Hitems].
  unfold fallback_item. cbn [is_json forallb snd]. now rewrite Hcat.
Qed.
End NormalizerMore.

Lemma receipt_category_resolution_witness :
  valid_category (prop sports_result (lit "categoryId"))
  /\ prop sports_result (lit "categoryId") = VStr (lit "other")
  /\ prop cafe_result (lit "categoryId") = prop cafe_receipt (lit "categoryId").
Proof.
  destruct (receipt_category_resolution now0 sports_receipt sports_result)
    as (Hvalid & _ & Hother); [vm_compute; reflexivity|].
  destruct (receipt_category_resolution now0 cafe_receipt cafe_result)
    as (_ & Hkept & _); [vm_compute; reflexivity|].
  split; [exact Hvalid | split].
  - apply Hother. intros (c & Hc & Hin). vm_compute in Hc. injection Hc as <-.
    vm_compute in Hin. intuition discriminate.
  - apply Hkept. exists (lit "food"). split; [reflexivity | now left].
Defined.

Lemma items_follow_the_kept_items_witness :
  List.length (items sports_result) = List.length (kept_items sports_receipt)
  /\ Forall2 (fun item o => prop o (lit "name") = prop item (lit "name"))
             (kept_items sports_receipt) (items sports_result).
Proof.
  destruct (items_follow_the_kept_items now0 sports_receipt sports_result)
    as (Hlen & Hall); [vm_compute; reflexivity | discriminate |].
  split; [exact Hlen|].
  eapply Forall2_impl; [|exact Hall]. intros item o H. apply H.
Defined.

Lemma defaults_of_store_and_date_witness :
  prop (obj [("storeName", VStr unknown_store); ("date", VStr (formatNow now0));
             ("total", str "2,580"); ("categoryId", str "other");
             ("items", VArr [obj [("name", VStr generic_item);
                                  ("price", str "2,580");
                                  ("categoryId", str "other")]])]%string)
       (lit "storeName")
  = VStr unknown_store
  /\ prop (obj [("storeName", VStr unknown_store); ("date", VStr (formatNow now0));
                ("total", str "2,580"); ("categoryId", str "other");
                ("items", VArr [obj [("name", VStr generic_item);
                                     ("price", str "2,580");
                                     ("categoryId", str "other")]])]%string)
          (lit "date")
     = VStr (formatNow now0)
  /\ prop (obj [("storeName", VStr unknown_store); ("date", str "2024-01-05");
                ("total", str "0"); ("categoryId", str "other");
                ("items", VArr [obj [("name", VStr generic_item); ("price", str "0");
                                     ("categoryId", str "other")]])]%string)
          (lit "date")
     = prop dated (lit "date").
Proof.
  destruct (defaults_of_store_and_date now0 comma_total
              (obj [("storeName", VStr unknown_store); ("date", VStr (formatNow now0));
                    ("total", str "2,580"); ("categoryId", str "other");
                    ("items", VArr [obj [("name", VStr generic_item);
                                         ("price", str "2,580");
                                         ("categoryId", str "other")]])]%string))
    as (Hstore & Hdate & _); [vm_compute; reflexivity|].
  destruct (defaults_of_store_and_date now0 dated
              (obj [("storeName", VStr unknown_store); ("date", str "2024-01-05");
                    ("total", str "0"); ("categoryId", str "other");
                    ("items", VArr [obj [("name", VStr generic_item); ("price", str "0");
                                         ("categoryId", str "other")]])]%string))
    as (_ & _ & Hkept & _); [vm_compute; reflexivity|].
  split; [apply Hstore; reflexivity | split; [apply Hdate; reflexivity|]].
  apply Hkept. reflexivity.
Defined.

Lemma rendering_parses_back_witness :
  amount (@VStr small_int (lit "-1,234,567")) = Ok (Finite true 1234567)
  /\ amount (@VStr small_int (lit "36,028,797,018,963,970"))
     = Ok (Finite false 36028797018963968)
  /\ (toLocaleString (Finite false 2580) = toLocaleString (Finite true 2580) -> False).
Proof.
  destruct (@rendering_parses_back small_int _) as (Hback & Hinj & Hsmall).
  assert (Hlarge : toLocaleString (Finite false 36028797018963968)
                   = lit "36,028,797,018,963,970") by (vm_compute; reflexivity).
  assert (Hminus : toLocaleString (Finite true 1234567) = lit "-1,234,567")
    by (vm_compute; reflexivity).
  split; [|split].
  - rewrite <- Hminus. apply Hsmall. reflexivity.
  - rewrite <- Hlarge. apply Hback; vm_compute; reflexivity.
  - apply Hinj; try (vm_compute; reflexivity). discriminate.
Defined.

Lemma amounts_of_odd_fields_witness :
  amount (obj [("n", str "1")]%string) = Ok (Finite false 0)
  /\ amount (obj [("toString", str "1")]%string)
     = Throw (TypeError (NotCallable (lit "toString"))).
Proof.
  destruct (@amounts_of_odd_fields small_int _) as (_ & _ & _ & _ & _ & Hplain & Hown).
  split; [apply Hplain | apply Hown]; reflexivity.
Defined.

Lemma result_is_json_witness : is_json sports_result = true.
Proof.
  apply (result_is_json now0 sports_receipt); vm_compute; reflexivity.
Defined.

(** X18: a total or price given as a JSON number instead of a text is
    accepted like its decimal numeral: an integer below 2^53 is parsed to
    itself, with its sign, and zero, which is falsy and replaced by '0',
    to zero. *)
Theorem numeric_amounts (neg : bool) (m : N) :
  m < 2 ^ 53 ->
  amount (VNum (Int neg m)) = Ok (Finite (neg && negb (m =? 0)) m).
Proof.
  intros Hm. unfold amount, raw_amount, or_else. cbn [truthy num_truthy small_int_number].
  destruct (m =? 0) eqn:E.
  - apply N.eqb_eq in E. subst m. rewrite andb_false_r. reflexivity.
  - cbn [negb toString ToString num_toString small_int_number bind].
    rewrite E, andb_true_r. cbn [negb]. f_equal. unfold signed_decimal.
    destruct (decimal_spec m) as (Hv & Hd & Hne).
    rewrite strip_app, (strip_digits _ Hd).
    pose proof (parseInt10_numeral (if neg then Minus else NoSign) (decimal m) []
                  Hd Hne eq_refl) as Hp.
    rewrite app_nil_r, Hv in Hp.
    unfold number_or_zero.
    destruct neg; cbn [sign_text sign_negative app andb] in *;
      change (strip_separators [minus_sign]) with [minus_sign];
      change (strip_separators []) with (@nil code_unit); cbn [app];
      rewrite Hp, to_number_not_NaN; unfold to_number;
      now rewrite (round_small _ Hm).
Qed.

Lemma numeric_amounts_witness :
  amount (VNum (Int true 2580)) = Ok (Finite true 2580)
  /\ amount (VNum (Int true 0)) = Ok (Finite false 0).
Proof.
  split.
  - apply (numeric_amounts true 2580). reflexivity.
  - apply (numeric_amounts true 0). reflexivity.
Defined.
